(** * AccuraRate: section extraction, numeric comparison and export rows

    A shallow embedding of the core of [src/src/App.js]: the outline
    traversal and page estimation of [parsePdf], the numeric comparison of
    [extractNumerics] / [parseNumericComparison] / [handleCompare], and the
    row builder of [handleExport].

    JavaScript strings are sequences of UTF-16 code units; a code unit is
    modelled as an [N], a string as a list of them. *)

From Stdlib Require Import List NArith Arith Lia Bool String Ascii Sorted.
From Stdlib Require Import Permutation DecimalNat.
Import ListNotations.

Set Implicit Arguments.

(* ================================================================= *)
(** ** JavaScript strings *)

Module Js.

Definition char := N.
Definition jsstring := list char.

(** Literals of the source, written as Rocq strings. *)
Definition str (s : string) : jsstring :=
  map N_of_ascii (list_ascii_of_string s).

Definition c_nl : char := 10%N.
Definition c_space : char := 32%N.
Definition c_comma : char := 44%N.
Definition c_minus : char := 45%N.
Definition c_dot : char := 46%N.
Definition c_eq : char := 61%N.

(** [\d] without the unicode flag: the ten ASCII digits. *)
Definition isDigit (c : char) : bool := ((48 <=? c) && (c <=? 57))%N.

(** WhiteSpace and LineTerminator code units, the ones [trim] strips. *)
Definition isWhiteSpace (c : char) : bool :=
  ((9 <=? c) && (c <=? 13) || (c =? 32) || (c =? 160) || (c =? 5760)
   || (8192 <=? c) && (c <=? 8202) || (c =? 8232) || (c =? 8233)
   || (c =? 8239) || (c =? 8287) || (c =? 12288) || (c =? 65279))%N.

Fixpoint dropWhile (p : char -> bool) (s : jsstring) : jsstring :=
  match s with
  | [] => []
  | c :: s' => if p c then dropWhile p s' else s
  end.

Fixpoint takeWhile (p : char -> bool) (s : jsstring) : jsstring :=
  match s with
  | [] => []
  | c :: s' => if p c then c :: takeWhile p s' else []
  end.

Definition trimStart (s : jsstring) : jsstring := dropWhile isWhiteSpace s.
Definition trimEnd (s : jsstring) : jsstring :=
  rev (dropWhile isWhiteSpace (rev s)).

(** [s.trim()] *)
Definition trim (s : jsstring) : jsstring := trimEnd (trimStart s).

(** Truthiness of a string value: the empty string is the only falsy one. *)
Definition truthy (s : jsstring) : bool :=
  match s with [] => false | _ :: _ => true end.

(** [a === b] on strings. *)
Fixpoint streq (a b : jsstring) : bool :=
  match a, b with
  | [], [] => true
  | x :: a', y :: b' => (x =? y)%N && streq a' b'
  | _, _ => false
  end.

(** [s.split(sep)] for a one-character separator: never an empty array. *)
Fixpoint split (sep : char) (s : jsstring) : list jsstring :=
  match s with
  | [] => [[]]
  | c :: s' =>
      if (c =? sep)%N then [] :: split sep s'
      else match split sep s' with
           | h :: t => (c :: h) :: t
           | [] => [[c]]
           end
  end.

(** [parts.join(sep)] *)
Fixpoint join (sep : jsstring) (parts : list jsstring) : jsstring :=
  match parts with
  | [] => []
  | [p] => p
  | p :: rest => p ++ sep ++ join sep rest
  end.

(** Template-literal rendering of a non-negative integer. *)
Fixpoint digits (d : Decimal.uint) : jsstring :=
  match d with
  | Decimal.Nil => []
  | Decimal.D0 d => 48%N :: digits d
  | Decimal.D1 d => 49%N :: digits d
  | Decimal.D2 d => 50%N :: digits d
  | Decimal.D3 d => 51%N :: digits d
  | Decimal.D4 d => 52%N :: digits d
  | Decimal.D5 d => 53%N :: digits d
  | Decimal.D6 d => 54%N :: digits d
  | Decimal.D7 d => 55%N :: digits d
  | Decimal.D8 d => 56%N :: digits d
  | Decimal.D9 d => 57%N :: digits d
  end.

Definition ofNat (n : nat) : jsstring := digits (Nat.to_uint n).

End Js.

Import Js.

(* ================================================================= *)
(** ** Numeric comparator *)

Module Numeric.

(** *** The regular expression [/-?\d+(?:,\d{3})*(?:\.\d+)?/g]

    Every factor after [\d+] can match the empty string, so the first
    successful path of the backtracking matcher is the greedy one. *)

(** [(?:,\d{3})*]: the matched text and the remaining input. *)
Fixpoint thousands (s : jsstring) : jsstring * jsstring :=
  match s with
  | c :: d1 :: d2 :: d3 :: rest =>
      if (c =? c_comma)%N && isDigit d1 && isDigit d2 && isDigit d3
      then let (m, r) := thousands rest in (c :: d1 :: d2 :: d3 :: m, r)
      else ([], s)
  | _ => ([], s)
  end.

(** [(?:\.\d+)?] *)
Definition fraction (s : jsstring) : jsstring * jsstring :=
  match s with
  | c :: d :: rest =>
      if (c =? c_dot)%N && isDigit d
      then (c :: d :: takeWhile isDigit rest, dropWhile isDigit rest)
      else ([], s)
  | _ => ([], s)
  end.

(** [\d+(?:,\d{3})*(?:\.\d+)?] anchored at the head of [s]. *)
Definition matchUnsigned (s : jsstring) : option jsstring :=
  match takeWhile isDigit s with
  | [] => None
  | ds =>
      let (g, r) := thousands (dropWhile isDigit s) in
      let (f, _) := fraction r in
      Some (ds ++ g ++ f)
  end.

(** The whole pattern anchored at the head of [s]; when the sign is taken
    and the rest fails, the matcher backtracks to the path without it. *)
Definition matchAt (s : jsstring) : option jsstring :=
  match s with
  | c :: s' =>
      if (c =? c_minus)%N then
        match matchUnsigned s' with
        | Some m => Some (c :: m)
        | None => matchUnsigned s
        end
      else matchUnsigned s
  | [] => None
  end.

(** [text.match(regex)] with the [g] flag: the successive matches, left to
    right; after a match the scan resumes at its end ([skip] counts the code
    units of the current match still to pass over). *)
Fixpoint matchAllFrom (skip : nat) (s : jsstring) : list jsstring :=
  match s with
  | [] => []
  | _ :: s' =>
      match skip with
      | S k => matchAllFrom k s'
      | O =>
          match matchAt s with
          | Some m => m :: matchAllFrom (List.length m - 1) s'
          | None => matchAllFrom 0 s'
          end
      end
  end.

(** [text.match(numericRegex) || []] *)
Definition matchAll (text : jsstring) : list jsstring := matchAllFrom 0 text.

(** [n.replace(/,/g, '')] *)
Definition stripCommas (n : jsstring) : jsstring :=
  filter (fun c => negb (c =? c_comma)%N) n.

Definition extractNumerics (text : jsstring) : jsstring :=
  join [c_nl] (map stripCommas (matchAll text)).

(** *** [Map] and [Set], iterated in insertion order *)

Definition jsmap := list (jsstring * jsstring).

Fixpoint map_get (k : jsstring) (m : jsmap) : option jsstring :=
  match m with
  | [] => None
  | (k', v) :: m' => if streq k' k then Some v else map_get k m'
  end.

(** [m.set(k, v)]: an existing key keeps its position. *)
Fixpoint map_set (k v : jsstring) (m : jsmap) : jsmap :=
  match m with
  | [] => [(k, v)]
  | (k', v') :: m' =>
      if streq k' k then (k', v) :: m' else (k', v') :: map_set k v m'
  end.

Definition map_keys (m : jsmap) : list jsstring := map fst m.

Definition mem (k : jsstring) (l : list jsstring) : bool :=
  existsb (streq k) l.

(** [new Set(keys)]: first occurrences, in order. *)
Definition set_of (keys : list jsstring) : list jsstring :=
  fold_left (fun acc k => if mem k acc then acc else acc ++ [k]) keys [].

(** *** [parseNumericComparison] *)

Record NumericChange := {
  category : jsstring;
  oldValue : jsstring;
  newValue : jsstring;
  type : jsstring
}.

(** [text.split('\n').filter(n => n.trim())] *)
Definition nonBlankLines (text : jsstring) : list jsstring :=
  filter (fun n => truthy (trim n)) (split c_nl text).

(** [const [variable, value] = line.split('=').map(s => s.trim())] followed
    by the guard [variable && value]. *)
Definition parseLine (line : jsstring) : option (jsstring * jsstring) :=
  let parts := map trim (split c_eq line) in
  match nth_error parts 0, nth_error parts 1 with
  | Some variable, Some value =>
      if truthy variable && truthy value then Some (variable, value) else None
  | _, _ => None
  end.

Definition addLine (m : jsmap) (line : jsstring) : jsmap :=
  match parseLine line with
  | Some (variable, value) => map_set variable value m
  | None => m
  end.

Definition buildMap (lines : list jsstring) : jsmap :=
  fold_left addLine lines [].

(** [m.get(k) || '0'] *)
Definition getOrZero (m : jsmap) (k : jsstring) : jsstring :=
  match map_get k m with
  | Some v => if truthy v then v else str "0"
  | None => str "0"
  end.

Definition compareKeys (oldMap newMap : jsmap) (vars : list jsstring)
  : list NumericChange :=
  flat_map (fun variable =>
    let o := getOrZero oldMap variable in
    let n := getOrZero newMap variable in
    if streq o n then []
    else [{| category := variable; oldValue := o; newValue := n;
             type := str "change" |}]) vars.

Definition parseNumericComparison (oldText newText sectionTitle : jsstring)
  : list NumericChange :=
  let oldMap := buildMap (nonBlankLines oldText) in
  let newMap := buildMap (nonBlankLines newText) in
  let allVariables := set_of (map_keys oldMap ++ map_keys newMap) in
  compareKeys oldMap newMap allVariables.

End Numeric.

Import Numeric.


(* ================================================================= *)
(** ** The document capability and the sections of [parsePdf] *)

Module Pdf.

(** An awaited call either resolves with a value or rejects. *)
Inductive Res (A : Type) : Type :=
| Ok (a : A)
| Throw.
Arguments Throw {A}.

(** Element 0 of an explicit destination array: a page reference object or
    an integer. *)
Inductive Target :=
| TRef (num gen : nat)
| TInt (n : nat).

Definition targetTruthy (t : Target) : bool :=
  match t with
  | TRef _ _ => true
  | TInt n => negb (n =? 0)
  end.

(** [item.dest]: absent, a named destination or an explicit array. *)
Inductive Dest :=
| DNull
| DName (name : jsstring)
| DArray (a : list Target).

Definition destTruthy (d : Dest) : bool :=
  match d with
  | DNull => false
  | DName s => truthy s
  | DArray _ => true
  end.

#[local] Unset Elimination Schemes.
Inductive OutlineItem :=
| Item (title : jsstring) (dest : Dest) (items : list OutlineItem).
#[local] Set Elimination Schemes.

(** What [parsePdf] asks of the loaded document. [pageItems j] is
    [getPage(j).getTextContent().items.map(item => item.str)]. *)
Record Document := {
  numPages : nat;
  getOutline : option (list OutlineItem);
  getDestination : Dest -> Res (option (list Target));
  getPageIndex : option Target -> Res nat;
  pageItems : nat -> list jsstring
}.

(** An entry of the [sections] array. The entries of the page fallback
    carry no [level]. *)
Record Sect := {
  title : jsstring;
  startPage : nat;
  level : option nat;
  hasValidPage : bool
}.

Definition setStartPage (s : Sect) (p : nat) : Sect :=
  {| title := title s; startPage := p; level := level s;
     hasValidPage := hasValidPage s |}.

Inductive Mode := TOC | PAGES.

Section Parse.

Variable pdf : Document.

(** The inner [try] of [processOutline] (lines 46-50). *)
Definition tryDestination (d : Dest) : Res (option nat) :=
  match getDestination pdf d with
  | Throw => Throw
  | Ok destination =>
      match destination with
      | Some (t0 :: _) =>
          if targetTruthy t0 then
            match getPageIndex pdf (Some t0) with
            | Ok pageIndex => Ok (Some (pageIndex + 1))
            | Throw => Throw
            end
          else Ok None
      | _ => Ok None
      end
  end.

(** [pageNum] after lines 44-63: the inner [try] and its [catch]. *)
Definition resolvePage (d : Dest) : option nat :=
  if destTruthy d then
    match tryDestination d with
    | Ok pageNum => pageNum
    | Throw =>
        match d with
        | DName _ => None
        | DArray a =>
            match getPageIndex pdf (hd_error a) with
            | Ok pageIndex => Some (pageIndex + 1)
            | Throw => None
            end
        | DNull => None
        end
    end
  else None.

(** [pageNum || sections.length + 1] *)
Definition orLength (pageNum : option nat) (sections : list Sect) : nat :=
  match pageNum with
  | Some (S p) => S p
  | _ => List.length sections + 1
  end.

Definition isNotNull (pageNum : option nat) : bool :=
  match pageNum with Some _ => true | None => false end.

(** The body of the outer [try] (lines 44-77). No step of it outside the
    inner [try] rejects, so it always resolves. *)
Definition tryItem (lvl : nat) (t : jsstring) (d : Dest)
    (sections : list Sect) : Res (list Sect) :=
  let pageNum := resolvePage d in
  let pageNum :=
    match pageNum with
    | None => if truthy t then Some (List.length sections + 1) else None
    | Some _ => pageNum
    end in
  if truthy t && truthy (trim t) then
    Ok (sections ++ [{| title := trim t;
                        startPage := orLength pageNum sections;
                        level := Some lvl;
                        hasValidPage := isNotNull pageNum |}])
  else Ok sections.

(** The outer [catch] (lines 79-88). *)
Definition catchItem (lvl : nat) (t : jsstring) (sections : list Sect)
  : list Sect :=
  if truthy t && truthy (trim t) then
    sections ++ [{| title := trim t;
                    startPage := List.length sections + 1;
                    level := Some lvl;
                    hasValidPage := false |}]
  else sections.

Definition visitItem (lvl : nat) (t : jsstring) (d : Dest)
    (sections : list Sect) : list Sect :=
  match tryItem lvl t d sections with
  | Ok sections' => sections'
  | Throw => catchItem lvl t sections
  end.

(** One iteration of the [for] loop of [processOutline], with the recursive
    call on [item.items]; [sections] is the array the closure appends to. *)
Fixpoint processItem (lvl : nat) (item : OutlineItem) (sections : list Sect)
  {struct item} : list Sect :=
  match item with
  | Item t d its =>
      let sections1 := visitItem lvl t d sections in
      match its with
      | [] => sections1
      | _ :: _ =>
          fold_left (fun acc it => processItem (lvl + 1) it acc) its sections1
      end
  end.

Definition processOutline (outlineItems : list OutlineItem) (lvl : nat)
    (sections : list Sect) : list Sect :=
  fold_left (fun acc it => processItem lvl it acc) outlineItems sections.

End Parse.

(** [self.findIndex(p)]; [None] stands for -1. *)
Fixpoint findIndex (A : Type) (p : A -> bool) (l : list A) : option nat :=
  match l with
  | [] => None
  | x :: l' =>
      if p x then Some 0
      else match findIndex p l' with
           | Some i => Some (S i)
           | None => None
           end
  end.

Definition isIndex (found : option nat) (index : nat) : bool :=
  match found with
  | Some i => i =? index
  | None => false
  end.

(** Lines 101-103: keep the first section of every title. *)
Definition dedupe (self : list Sect) : list Sect :=
  map snd
    (filter (fun '(index, section) =>
               isIndex (findIndex (fun s => streq (title s) (title section))
                                  self) index)
            (combine (seq 0 (List.length self)) self)).

(** [arr.sort((a, b) => a.startPage - b.startPage)]: the sort is stable, so
    the result is the one of a stable insertion sort. *)
Fixpoint insertByPage (x : Sect) (l : list Sect) : list Sect :=
  match l with
  | [] => [x]
  | y :: l' =>
      if startPage x <=? startPage y then x :: l
      else y :: insertByPage x l'
  end.

Definition sortByPage (l : list Sect) : list Sect :=
  fold_right insertByPage [] l.

(** [Math.ceil(a / b)] for [b > 0]; the quotient of two page counts is
    far from the range where the floating-point division rounds onto an
    integer. *)
Definition ceilDiv (a b : nat) : nat := (a + b - 1) / b.

(** [arr.forEach((section, index) => { section.startPage = f index })] *)
Fixpoint assignPages (f : nat -> nat) (l : list Sect) (index : nat)
  : list Sect :=
  match l with
  | [] => []
  | section :: l' =>
      setStartPage section (f index) :: assignPages f l' (S index)
  end.

(** Lines 105-118, on the deduplicated sections. *)
Definition estimatePages (P : nat) (sections : list Sect) : list Sect :=
  let validPageSections := filter hasValidPage sections in
  let invalidPageSections :=
    filter (fun s => negb (hasValidPage s)) sections in
  if 0 <? List.length validPageSections then
    let valid := sortByPage validPageSections in
    let invalid :=
      assignPages
        (fun index =>
           ceilDiv P (List.length invalidPageSections + 1) * (index + 1))
        invalidPageSections 0 in
    sortByPage (valid ++ invalid)
  else
    assignPages (fun index => ceilDiv P (List.length sections) * index + 1)
                sections 0.

(** Lines 97-122. *)
Definition tocSections (pdf : Document) : list Sect :=
  match getOutline pdf with
  | Some (it :: outline) =>
      let sections := processOutline pdf (it :: outline) 0 [] in
      if 0 <? List.length sections
      then estimatePages (numPages pdf) (dedupe sections)
      else sections
  | _ => []
  end.

(** Lines 127-129. *)
Definition pageSections (P : nat) : list Sect :=
  map (fun i => {| title := str "Page " ++ ofNat i; startPage := i;
                   level := None; hasValidPage := true |})
      (seq 1 P).

(** Lines 131-134. *)
Definition clampPages (P : nat) (sections : list Sect) : list Sect :=
  map (fun section => setStartPage section (Nat.min (startPage section) P))
      sections.

(** The final [sections] and [parseMode] (lines 36-135). *)
Definition finalSections (pdf : Document) : list Sect * Mode :=
  match tocSections pdf with
  | [] => (pageSections (numPages pdf), PAGES)
  | sections => (clampPages (numPages pdf) sections, TOC)
  end.

Module Extracted.
Record t := { title : jsstring; text : jsstring }.
End Extracted.

Section Extract.

Variable pdf : Document.

(** The inner loop [for (j = startPage; j <= endPage; j++)] with [count]
    iterations left; the result is [sectionText] and the pages fetched with
    [getPage], in order. *)
Fixpoint readPages (j count : nat) (sectionText : jsstring)
    (fetched : list nat) : jsstring * list nat :=
  match count with
  | O => (sectionText, fetched)
  | S count' =>
      if (numPages pdf <? j) || (j <? 1)
      then readPages (S j) count' sectionText fetched
      else readPages (S j) count'
             (sectionText ++ join [c_space] (pageItems pdf j))
             (fetched ++ [j])
  end.

(** [endPage + 1] of the section at the head of [rest]: the start of the
    next section, or one past the last page. ([endPage] itself is -1 when
    the next section starts at page 0.) *)
Definition endBound (rest : list Sect) : nat :=
  match rest with
  | next :: _ => startPage next
  | [] => numPages pdf + 1
  end.

(** Lines 137-149; the sections still to extract are [sections[i..]]. Each
    extracted section comes with the pages fetched for it. *)
Fixpoint extractSections (sections : list Sect)
  : list (Extracted.t * list nat) :=
  match sections with
  | [] => []
  | section :: rest =>
      let startPage := startPage section in
      let (sectionText, fetched) :=
        readPages startPage (endBound rest - startPage) [] [] in
      ({| Extracted.title := title section; Extracted.text := sectionText |},
       fetched) :: extractSections rest
  end.

End Extract.

(** What the promise of [parsePdf] resolves with, for a loaded document. *)
Definition parsePdf (pdf : Document) : list Extracted.t * Mode :=
  let (sections, parseMode) := finalSections pdf in
  (map fst (extractSections pdf sections), parseMode).

(** The pages fetched with [getPage] during [parsePdf], per section. *)
Definition pagesFetched (pdf : Document) : list (list nat) :=
  map snd (extractSections pdf (fst (finalSections pdf))).

End Pdf.

(* ================================================================= *)
(** ** The component state, [handleCompare] and [handleExport] *)

Module App.

Import Pdf.

(** A part of the [diff] library's output; an absent flag is [false]. *)
Record DiffPart := {
  value : jsstring;
  added : bool;
  removed : bool
}.

(** An entry of [comparisonResult]: [changes] is [null] in numeric mode
    and [numericChanges] is absent in text mode. *)
Record Result := {
  title : jsstring;
  changes : option (list DiffPart);
  numericChanges : option (list NumericChange)
}.

(** A row handed to [XLSX.utils.json_to_sheet]; text rows have no
    ['Category']. *)
Record ExportRow := {
  SectionTitle : jsstring;
  Category : option jsstring;
  OldValue : jsstring;
  NewValue : jsstring;
  DifferenceType : jsstring
}.

(** The [useState] cells of [App] read or written by the two handlers and
    the view around them (the two [File] handles are opaque and left out). *)
Record State := {
  page : jsstring;
  oldPdfSections : list Extracted.t;
  newPdfSections : list Extracted.t;
  newPdfName : jsstring;
  oldPdfName : jsstring;
  combinedSections : list jsstring;
  selectedSections : list (jsstring * bool);
  onlyNumeric : bool;
  comparisonResult : list Result;
  isLoading : bool;
  error : jsstring;
  fallbackMessage : jsstring
}.

Definition setError (msg : jsstring) (st : State) : State :=
  {| page := page st;
     oldPdfSections := oldPdfSections st;
     newPdfSections := newPdfSections st;
     newPdfName := newPdfName st;
     oldPdfName := oldPdfName st;
     combinedSections := combinedSections st;
     selectedSections := selectedSections st;
     onlyNumeric := onlyNumeric st;
     comparisonResult := comparisonResult st;
     isLoading := isLoading st;
     error := msg;
     fallbackMessage := fallbackMessage st |}.

Definition setIsLoading (b : bool) (st : State) : State :=
  {| page := page st;
     oldPdfSections := oldPdfSections st;
     newPdfSections := newPdfSections st;
     newPdfName := newPdfName st;
     oldPdfName := oldPdfName st;
     combinedSections := combinedSections st;
     selectedSections := selectedSections st;
     onlyNumeric := onlyNumeric st;
     comparisonResult := comparisonResult st;
     isLoading := b;
     error := error st;
     fallbackMessage := fallbackMessage st |}.

Definition setComparisonResult (r : list Result) (st : State) : State :=
  {| page := page st;
     oldPdfSections := oldPdfSections st;
     newPdfSections := newPdfSections st;
     newPdfName := newPdfName st;
     oldPdfName := oldPdfName st;
     combinedSections := combinedSections st;
     selectedSections := selectedSections st;
     onlyNumeric := onlyNumeric st;
     comparisonResult := r;
     isLoading := isLoading st;
     error := error st;
     fallbackMessage := fallbackMessage st |}.

(** The selection is a plain object: the list holds its own properties,
    and it inherits the members of [Object.prototype], all of them truthy
    (eleven functions and the [__proto__] accessor, which returns the
    prototype). *)
Definition inheritedMembers : list jsstring :=
  [ str "constructor"; str "toString"; str "toLocaleString";
    str "valueOf"; str "hasOwnProperty"; str "isPrototypeOf";
    str "propertyIsEnumerable"; str "__defineGetter__";
    str "__defineSetter__"; str "__lookupGetter__";
    str "__lookupSetter__"; str "__proto__" ].

Definition isInherited (t : jsstring) : bool :=
  existsb (streq t) inheritedMembers.

(** The own property of the selection object under a title, if any. *)
Fixpoint ownSelected (sel : list (jsstring * bool)) (t : jsstring)
  : option bool :=
  match sel with
  | [] => None
  | (k, b) :: sel' => if streq k t then Some b else ownSelected sel' t
  end.

(** [selectedSections[title]] read as a condition: the own property when
    there is one, else an inherited member (truthy), else [undefined]. *)
Definition isSelected (sel : list (jsstring * bool)) (t : jsstring) : bool :=
  match ownSelected sel t with
  | Some b => b
  | None => isInherited t
  end.

(** [sections.find(s => s.title === title)] and the text it contributes. *)
Definition sectionText (sections : list Extracted.t) (t : jsstring)
  : jsstring :=
  match find (fun s => streq (Extracted.title s) t) sections with
  | Some s => Extracted.text s
  | None => []
  end.

Section Compare.

(** [diff.diffLines(a, b, { newlineIsToken: true, ignoreWhitespace: true })] *)
Variable diffLines : jsstring -> jsstring -> list DiffPart.

(** The body of [combinedSections.forEach] in [handleCompare] (lines
    290-314): the entries it pushes to [results]. *)
Definition compareSection (st : State) (t : jsstring) : list Result :=
  if negb (isSelected (selectedSections st) t) then []
  else
    let oldText := sectionText (oldPdfSections st) t in
    let newText := sectionText (newPdfSections st) t in
    if onlyNumeric st then
      let oldText := extractNumerics oldText in
      let newText := extractNumerics newText in
      let numericComparison := parseNumericComparison oldText newText t in
      if 0 <? List.length numericComparison
      then [{| title := t; changes := None;
               numericChanges := Some numericComparison |}]
      else []
    else
      let differences := diffLines (trim oldText) (trim newText) in
      let changes' := filter (fun part => added part || removed part)
                             differences in
      if 0 <? List.length changes'
      then [{| title := t; changes := Some changes';
               numericChanges := None |}]
      else [].

Definition handleCompare (st : State) : State :=
  let st := setError [] (setIsLoading true st) in
  let results := flat_map (compareSection st) (combinedSections st) in
  setIsLoading false (setComparisonResult results st).

End Compare.

(** The row of one iteration of the [while] loop (lines 339-361) and the
    next value of [i]. *)
Definition exportStep (t : jsstring) (numeric : bool)
    (current : DiffPart) (next : option DiffPart) (i : nat)
  : ExportRow * nat :=
  let diffType := if numeric then str "Numeric" else str "Textual" in
  let row old new :=
    {| SectionTitle := t; Category := None; OldValue := old;
       NewValue := new; DifferenceType := diffType |} in
  let nextAdded := match next with Some n => added n | None => false end in
  if removed current && nextAdded then
    (row (trim (value current))
         (match next with Some n => trim (value n) | None => [] end),
     i + 2)
  else if removed current then (row (trim (value current)) [], i + 1)
  else if added current then (row [] (trim (value current)), i + 1)
  else (row [] [], i + 1).

(** [while (i < changes.length) { ... exportData.push(row) }]; [fuel]
    bounds the number of iterations. *)
Fixpoint exportLoop (fuel : nat) (t : jsstring) (numeric : bool)
    (changes' : list DiffPart) (i : nat) (exportData : list ExportRow)
  : list ExportRow :=
  match fuel with
  | O => exportData
  | S fuel' =>
      match nth_error changes' i with
      | Some current =>
          let next :=
            if i + 1 <? List.length changes'
            then nth_error changes' (i + 1) else None in
          let (row, i') := exportStep t numeric current next i in
          exportLoop fuel' t numeric changes' i' (exportData ++ [row])
      | None => exportData
      end
  end.

(** The rows of one text result; every iteration advances [i], so
    [changes.length] iterations are enough. *)
Definition textRows (t : jsstring) (numeric : bool)
    (changes' : list DiffPart) : list ExportRow :=
  exportLoop (List.length changes') t numeric changes' 0 [].

Definition numericRows (t : jsstring) (l : list NumericChange)
  : list ExportRow :=
  map (fun change =>
         {| SectionTitle := t; Category := Some (category change);
            OldValue := oldValue change; NewValue := newValue change;
            DifferenceType := str "Numeric" |}) l.

(** The body of [comparisonResult.forEach] (lines 323-365). *)
Definition resultRows (numeric : bool) (r : Result) : list ExportRow :=
  match numericChanges r with
  | Some l => numericRows (title r) l
  | None =>
      match changes r with
      | Some l => textRows (title r) numeric l
      | None => []
      end
  end.

Definition buildExportData (st : State) : list ExportRow :=
  flat_map (resultRows (onlyNumeric st)) (comparisonResult st).

(** A call into the spreadsheet library: the worksheet rows, the sheet
    name and the file name of [XLSX.writeFile]. *)
Record XlsxCall := {
  rows : list ExportRow;
  sheetName : jsstring;
  fileName : jsstring
}.

(** What a run of [handleExport] leaves: the state, the spreadsheet calls
    made and whether the handler returned or threw. *)
Record Run := {
  state : State;
  calls : list XlsxCall;
  outcome : Res unit
}.

Section Exporting.

(** Whether the spreadsheet library writes the rows or throws. *)
Variable xlsxWrite : list ExportRow -> Res unit.

Definition handleExport (st : State) : Run :=
  let exportData := buildExportData st in
  if 0 <? List.length exportData then
    {| state := st;
       calls := [{| rows := exportData; sheetName := str "Differences";
                    fileName := str "Rate_Comparison_Report.xlsx" |}];
       outcome := xlsxWrite exportData |}
  else
    {| state := setError (str "No differences to export.") st;
       calls := [];
       outcome := Ok tt |}.

End Exporting.

End App.

(* ================================================================= *)
(** ** Notions used to state the properties *)

Module Notions.

Import Pdf.

(** The text before the first [sep] and, when there is one, after it. *)
Definition before (sep : char) (s : jsstring) : jsstring :=
  takeWhile (fun c => negb (c =? sep)%N) s.

Definition after (sep : char) (s : jsstring) : option jsstring :=
  match dropWhile (fun c => negb (c =? sep)%N) s with
  | [] => None
  | _ :: r => Some r
  end.

(** The key/value pairs of the lines that parse, in line order. *)
Definition lineEntries (lines : list jsstring) : jsmap :=
  flat_map (fun line => match parseLine line with
                        | Some e => [e]
                        | None => []
                        end) lines.

(** [m.get(k) ?? "0"] *)
Definition valueOrZero (m : jsmap) (k : jsstring) : jsstring :=
  match map_get k m with
  | Some v => v
  | None => str "0"
  end.

Definition change (k o n : jsstring) : NumericChange :=
  {| category := k; oldValue := o; newValue := n; type := str "change" |}.

(** Sections whose page was estimated. *)
Definition unresolved (s : Sect) : bool := negb (hasValidPage s).

Definition pageLe (a b : Sect) : Prop := startPage a <= startPage b.

(** The section the fallback makes of page [n]. *)
Definition pageSection (n : nat) : Sect :=
  {| Pdf.title := str "Page " ++ ofNat n; startPage := n; level := None;
     hasValidPage := true |}.

(** A document without outline entries, three pages of one word each. *)
Definition threePages : Document :=
  {| numPages := 3;
     getOutline := Some [];
     getDestination := fun _ => Throw;
     getPageIndex := fun _ => Throw;
     pageItems := fun j => [str "p" ++ ofNat j] |}.

(** A five-page document whose outline has the single entry ["A"]; its
    named destination resolves to the page of index [idx]. *)
Definition oneEntry (idx : nat) : Document :=
  {| numPages := 5;
     getOutline := Some [Item (str "A") (DName (str "a")) []];
     getDestination := fun _ => Ok (Some [TRef 7 0]);
     getPageIndex := fun _ => Ok idx;
     pageItems := fun j => [str "p" ++ ofNat j; str "q"] |}.

(** A five-page document whose single outline entry ["A"] has no
    destination. *)
Definition noDestination : Document :=
  {| numPages := 5;
     getOutline := Some [Item (str "A") DNull []];
     getDestination := fun _ => Throw;
     getPageIndex := fun _ => Throw;
     pageItems := fun _ => [] |}.

(** The guard of the page loop: [1 <= j <= P]. *)
Definition inRange (P j : nat) : bool := (1 <=? j) && (j <=? P).

(** The pages [first], ..., [bound - 1]. *)
Definition pageRange (first bound : nat) : list nat :=
  seq first (bound - first).

(** The text of page [j]: its text items joined by single spaces. *)
Definition pageText (pdf : Document) (j : nat) : jsstring :=
  join [c_space] (pageItems pdf j).

(** The start page of the first section. *)
Definition firstStart (sections : list Sect) : nat :=
  match sections with
  | s :: _ => startPage s
  | [] => 1
  end.

(** One past the end page of the section at index [i]: the start of the
    section after it, or one past the last page. *)
Definition endPageBound (P : nat) (sections : list Sect) (i : nat) : nat :=
  match nth_error sections (i + 1) with
  | Some next => startPage next
  | None => P + 1
  end.

(** A deduplicated section list with one resolved section (page 7) and
    four unresolved ones. *)
Definition spreadExample : list Sect :=
  [ {| Pdf.title := str "u1"; startPage := 1; level := Some 0;
       hasValidPage := false |};
    {| Pdf.title := str "v"; startPage := 7; level := Some 0;
       hasValidPage := true |};
    {| Pdf.title := str "u2"; startPage := 3; level := Some 1;
       hasValidPage := false |};
    {| Pdf.title := str "u3"; startPage := 4; level := Some 1;
       hasValidPage := false |};
    {| Pdf.title := str "u4"; startPage := 5; level := Some 0;
       hasValidPage := false |} ].

(** A part with [added] or [removed] set, as kept by the filter of
    [handleCompare]. *)
Definition changed (part : App.DiffPart) : bool :=
  App.added part || App.removed part.

Definition textRow (t : jsstring) (numeric : bool) (old new : jsstring)
  : App.ExportRow :=
  {| App.SectionTitle := t; App.Category := None; App.OldValue := old;
     App.NewValue := new;
     App.DifferenceType := if numeric then str "Numeric" else str "Textual" |}.

(** The pairing in the words of the specification, over changed parts: a
    removed part directly followed by an added one makes one row with both
    values, any other removed part an old-only row, an added part a
    new-only row. *)
Fixpoint pairRows (t : jsstring) (numeric : bool)
    (parts : list App.DiffPart) : list App.ExportRow :=
  match parts with
  | [] => []
  | current :: rest =>
      if App.removed current then
        match rest with
        | next :: rest' =>
            if App.added next
            then textRow t numeric (trim (App.value current))
                                   (trim (App.value next))
                 :: pairRows t numeric rest'
            else textRow t numeric (trim (App.value current)) []
                 :: pairRows t numeric rest
        | [] => [textRow t numeric (trim (App.value current)) []]
        end
      else textRow t numeric [] (trim (App.value current))
           :: pairRows t numeric rest
  end.

Definition removedPart (v : jsstring) : App.DiffPart :=
  {| App.value := v; App.added := false; App.removed := true |}.

Definition addedPart (v : jsstring) : App.DiffPart :=
  {| App.value := v; App.added := true; App.removed := false |}.

Definition unchangedPart (v : jsstring) : App.DiffPart :=
  {| App.value := v; App.added := false; App.removed := false |}.

(** The state on the comparison page, numeric mode on or off, before any
    comparison was stored. *)
Definition freshState (numeric : bool) : App.State :=
  {| App.page := str "compare";
     App.oldPdfSections :=
       [{| Extracted.title := str "Rates"; Extracted.text := str "rate 10" |}];
     App.newPdfSections :=
       [{| Extracted.title := str "Rates"; Extracted.text := str "rate 12" |}];
     App.newPdfName := str "new.pdf";
     App.oldPdfName := str "old.pdf";
     App.combinedSections := [str "Rates"];
     App.selectedSections := [(str "Rates", true)];
     App.onlyNumeric := numeric;
     App.comparisonResult := [];
     App.isLoading := false;
     App.error := [];
     App.fallbackMessage := [] |}.

End Notions.

Import Notions.

(* ================================================================= *)
(** ** File selection, section alignment and selection toggles *)

Module Ui.

Import Pdf.

(** [a <= b] on strings, by code units: the order of [array.sort()]
    without a comparator. *)
Fixpoint strLeb (a b : jsstring) : bool :=
  match a, b with
  | [], _ => true
  | _ :: _, [] => false
  | x :: a', y :: b' =>
      if (x <? y)%N then true
      else if (y <? x)%N then false
      else strLeb a' b'
  end.

(** [titles.sort()]: as for the sections, the result of a stable
    insertion sort. *)
Fixpoint insertTitle (x : jsstring) (l : list jsstring) : list jsstring :=
  match l with
  | [] => [x]
  | y :: l' => if strLeb x y then x :: l else y :: insertTitle x l'
  end.

Definition sortTitles (l : list jsstring) : list jsstring :=
  fold_right insertTitle [] l.

(** The own property [title: v] defined on the selection object, as the
    object literal [{...prev, [title]: v}] does: the spread copies the own
    properties and the computed key defines one, whatever its name. *)
Fixpoint sel_set (sel : list (jsstring * bool)) (t : jsstring) (v : bool)
  : list (jsstring * bool) :=
  match sel with
  | [] => [(t, v)]
  | (k, b) :: sel' =>
      if streq k t then (k, v) :: sel' else (k, b) :: sel_set sel' t v
  end.

(** The assignment [acc[title] = v] of a boolean: it defines an own
    property, except under [__proto__], where it runs the inherited setter,
    which leaves the object as it is when the value is no object. *)
Definition sel_assign (sel : list (jsstring * bool)) (t : jsstring)
    (v : bool) : list (jsstring * bool) :=
  if streq t (str "__proto__") then sel else sel_set sel t v.

Definition setCombinedSections (l : list jsstring) (st : App.State)
  : App.State :=
  {| App.page := App.page st;
     App.oldPdfSections := App.oldPdfSections st;
     App.newPdfSections := App.newPdfSections st;
     App.newPdfName := App.newPdfName st;
     App.oldPdfName := App.oldPdfName st;
     App.combinedSections := l;
     App.selectedSections := App.selectedSections st;
     App.onlyNumeric := App.onlyNumeric st;
     App.comparisonResult := App.comparisonResult st;
     App.isLoading := App.isLoading st;
     App.error := App.error st;
     App.fallbackMessage := App.fallbackMessage st |}.

Definition setSelectedSections (sel : list (jsstring * bool))
    (st : App.State) : App.State :=
  {| App.page := App.page st;
     App.oldPdfSections := App.oldPdfSections st;
     App.newPdfSections := App.newPdfSections st;
     App.newPdfName := App.newPdfName st;
     App.oldPdfName := App.oldPdfName st;
     App.combinedSections := App.combinedSections st;
     App.selectedSections := sel;
     App.onlyNumeric := App.onlyNumeric st;
     App.comparisonResult := App.comparisonResult st;
     App.isLoading := App.isLoading st;
     App.error := App.error st;
     App.fallbackMessage := App.fallbackMessage st |}.

Definition setPdfSections (old new : list Extracted.t) (st : App.State)
  : App.State :=
  {| App.page := App.page st;
     App.oldPdfSections := old;
     App.newPdfSections := new;
     App.newPdfName := App.newPdfName st;
     App.oldPdfName := App.oldPdfName st;
     App.combinedSections := App.combinedSections st;
     App.selectedSections := App.selectedSections st;
     App.onlyNumeric := App.onlyNumeric st;
     App.comparisonResult := App.comparisonResult st;
     App.isLoading := App.isLoading st;
     App.error := App.error st;
     App.fallbackMessage := App.fallbackMessage st |}.


Definition setFallbackMessage (msg : jsstring) (st : App.State)
  : App.State :=
  {| App.page := App.page st;
     App.oldPdfSections := App.oldPdfSections st;
     App.newPdfSections := App.newPdfSections st;
     App.newPdfName := App.newPdfName st;
     App.oldPdfName := App.oldPdfName st;
     App.combinedSections := App.combinedSections st;
     App.selectedSections := App.selectedSections st;
     App.onlyNumeric := App.onlyNumeric st;
     App.comparisonResult := App.comparisonResult st;
     App.isLoading := App.isLoading st;
     App.error := App.error st;
     App.fallbackMessage := msg |}.

(** The effect on [oldPdfSections] and [newPdfSections] (lines 189-199):
    the sorted union of the titles, every title selected. *)
Definition alignSections (st : App.State) : App.State :=
  let oldTitles := map Extracted.title (App.oldPdfSections st) in
  let newTitles := map Extracted.title (App.newPdfSections st) in
  let allTitles := sortTitles (set_of (oldTitles ++ newTitles)) in
  let initialSelection :=
    fold_left (fun acc t => sel_assign acc t true) allTitles [] in
  setSelectedSections initialSelection (setCombinedSections allTitles st).

(** [handleSectionToggle] (lines 226-228). *)
Definition handleSectionToggle (t : jsstring) (st : App.State) : App.State :=
  let prev := App.selectedSections st in
  setSelectedSections (sel_set prev t (negb (App.isSelected prev t))) st.

(** A chosen file: what [handleFileChange] reads of it. *)
Record File := {
  name : jsstring;
  type : jsstring
}.

(** The state cells together with the two file cells [oldPdf], [newPdf]. *)
Record Session := {
  cells : App.State;
  oldPdf : option File;
  newPdf : option File
}.



(** How [Promise.all([parsePdf(oldPdf), parsePdf(newPdf)])] settles: with
    the two results, or rejected with an error of some message. *)
Inductive Settled :=
| Resolved (oldResult newResult : list Extracted.t * Mode)
| Rejected (message : jsstring).

Definition isPages (m : Mode) : bool :=
  match m with PAGES => true | TOC => false end.

(** [processFiles] (lines 161-185), once the promise has settled. *)
Definition processFiles (settled : Settled) (s : Session) : Session :=
  match oldPdf s, newPdf s with
  | Some _, Some _ =>
      let st :=
        App.setComparisonResult []
          (setFallbackMessage []
             (App.setError [] (App.setIsLoading true (cells s)))) in
      let st :=
        match settled with
        | Resolved oldResult newResult =>
            let st := setPdfSections (fst oldResult) (fst newResult) st in
            if isPages (snd oldResult) || isPages (snd newResult)
            then setFallbackMessage
                   (str "One or both PDFs lacked a table of contents. Comparison is based on page numbers.")
                   st
            else st
        | Rejected message =>
            App.setError
              (str "Failed to parse PDF: " ++ message
               ++ str ". Please ensure the file is not corrupted.") st
        end in
      {| cells := App.setIsLoading false st;
         oldPdf := oldPdf s; newPdf := newPdf s |}
  | _, _ => s
  end.

(** Both documents loaded: the promise resolves with their parses. *)
Definition parseBoth (oldDoc newDoc : Document) : Settled :=
  Resolved (parsePdf oldDoc) (parsePdf newDoc).

End Ui.

(* ================================================================= *)
(** ** Further notions used to state properties *)

Module MoreNotions.

Import Pdf.

(** A title that survives [trim]. *)
Definition nonBlank (t : jsstring) : bool := truthy (trim t).

(** The titled entries of an outline in depth-first order, with their
    nesting depth. *)
Fixpoint titledEntries (lvl : nat) (item : OutlineItem)
  : list (jsstring * option nat) :=
  match item with
  | Item t _ its =>
      (if nonBlank t then [(trim t, Some lvl)] else [])
      ++ flat_map (titledEntries (lvl + 1)) its
  end.

Definition titleLevel (s : Sect) : jsstring * option nat :=
  (Pdf.title s, level s).

(** The first section with a given title. *)
Definition firstTitled (t : jsstring) (l : list Sect) : option Sect :=
  find (fun s => streq (Pdf.title s) t) l.

(** The code units [extractNumerics] can output. *)
Definition numeralUnit (c : char) : bool :=
  isDigit c || (c =? c_minus)%N || (c =? c_dot)%N || (c =? c_nl)%N.

Definition hasDigit (s : jsstring) : bool := existsb isDigit s.

Definition swapChange (c : NumericChange) : NumericChange :=
  {| category := category c; oldValue := newValue c;
     newValue := oldValue c; type := type c |}.

Definition strLe (a b : jsstring) : Prop := Ui.strLeb a b = true.

Definition sectionTitles (st : App.State) : list jsstring :=
  map Extracted.title (App.oldPdfSections st)
  ++ map Extracted.title (App.newPdfSections st).


(** The sections of [l] whose title is carried by no section of [seen]
    nor by an earlier section of [l]. *)
Fixpoint firstOccurrences (seen l : list Sect) : list Sect :=
  match l with
  | [] => []
  | x :: l' =>
      (if existsb (fun s => streq (Pdf.title s) (Pdf.title x)) seen
       then [] else [x])
      ++ firstOccurrences (seen ++ [x]) l'
  end.

(** The sections the traversal of the document's outline pushes. *)
Definition traversal (pdf : Document) : list Sect :=
  match getOutline pdf with
  | Some outline => processOutline pdf outline 0 []
  | None => []
  end.

(** The titled entries of the document's outline. *)
Definition outlineEntries (pdf : Document) : list (jsstring * option nat) :=
  match getOutline pdf with
  | Some outline => flat_map (titledEntries 0) outline
  | None => []
  end.

Definition allDigits (s : jsstring) : Prop :=
  Forall (fun c => isDigit c = true) s.

(** A decimal numeral without separators: an optional minus sign, one or
    more digits and optionally a dot followed by one or more digits. *)
Definition numeral (m : jsstring) : Prop :=
  exists sign ds fr,
    m = sign ++ ds ++ fr /\
    (sign = [] \/ sign = [c_minus]) /\
    ds <> [] /\ allDigits ds /\
    (fr = [] \/ exists fs, fr = c_dot :: fs /\ fs <> [] /\ allDigits fs).

(** What may follow a numeral in the output: nothing, or a newline. *)
Definition lineEnd (rest : jsstring) : Prop :=
  rest = [] \/ exists r, rest = c_nl :: r.

Definition pdfFile (n : jsstring) : Ui.File :=
  {| Ui.name := n; Ui.type := str "application/pdf" |}.

(** Both files chosen, nothing parsed or compared yet. *)
Definition readySession : Ui.Session :=
  {| Ui.cells := freshState false;
     Ui.oldPdf := Some (pdfFile (str "old.pdf"));
     Ui.newPdf := Some (pdfFile (str "new.pdf")) |}.


Definition finalTitles (pdf : Document) : list jsstring :=
  map Pdf.title (fst (finalSections pdf)).

(** The rows of a stream, clause by clause: a removed part directly
    followed by an added one makes one row with both values; any other
    removed part an old-only row; an added part a new-only row; a part
    that is neither makes a row with both values empty. *)
Fixpoint rowsByPairing (t : jsstring) (numeric : bool)
    (parts : list App.DiffPart) : list App.ExportRow :=
  match parts with
  | [] => []
  | current :: rest =>
      if App.removed current then
        match rest with
        | next :: rest' =>
            if App.added next
            then textRow t numeric (trim (App.value current))
                                   (trim (App.value next))
                 :: rowsByPairing t numeric rest'
            else textRow t numeric (trim (App.value current)) []
                 :: rowsByPairing t numeric rest
        | [] => [textRow t numeric (trim (App.value current)) []]
        end
      else if App.added current then
        textRow t numeric [] (trim (App.value current))
        :: rowsByPairing t numeric rest
      else textRow t numeric [] [] :: rowsByPairing t numeric rest
  end.

(** A 20-page document whose outline has four entries without destination
    and one entry ["v"] whose destination resolves to page 7. *)
Definition fourUnresolved : Document :=
  {| numPages := 20;
     getOutline :=
       Some [ Item (str "u1") DNull [];
              Item (str "v") (DName (str "v")) [];
              Item (str "u2") DNull [];
              Item (str "u3") DNull [];
              Item (str "u4") DNull [] ];
     getDestination := fun _ => Ok (Some [TRef 7 0]);
     getPageIndex := fun _ => Ok 6;
     pageItems := fun _ => [] |}.

Definition titlePageFlag (s : Sect) : jsstring * nat * bool :=
  (Pdf.title s, startPage s, hasValidPage s).

End MoreNotions.

Import MoreNotions.

(* ================================================================= *)
(** * Properties *)

Import Pdf.

(** ** Strings *)

Lemma streq_spec (a b : jsstring) : reflect (a = b) (streq a b).
Proof.
  revert b; induction a as [|x a IH]; intros [|y b]; simpl;
    try (constructor; congruence).
  destruct (N.eqb_spec x y) as [->|Hne]; simpl.
  - destruct (IH b) as [->|Hne]; constructor; congruence.
  - constructor; congruence.
Qed.

Lemma streq_refl (a : jsstring) : streq a a = true.
Proof. destruct (streq_spec a a); congruence. Qed.

Lemma streq_eq (a b : jsstring) : streq a b = true <-> a = b.
Proof. destruct (streq_spec a b); split; congruence. Qed.

Lemma streq_neq (a b : jsstring) : streq a b = false <-> a <> b.
Proof. destruct (streq_spec a b); split; congruence. Qed.

Lemma split_nonempty (sep : char) (s : jsstring) : split sep s <> [].
Proof.
  destruct s as [|c s]; simpl; [discriminate|].
  destruct (c =? sep)%N; [discriminate|].
  destruct (split sep s); discriminate.
Qed.

(** Without the separator the string is the only piece. *)
Lemma split_absent (sep : char) (s : jsstring) :
  ~ In sep s -> split sep s = [s].
Proof.
  induction s as [|c s IH]; simpl; intros Hn; [reflexivity|].
  destruct (N.eqb_spec c sep) as [->|Hne]; [tauto|].
  rewrite IH by tauto. reflexivity.
Qed.

(** The pieces are made of code units of the string. *)
Lemma split_incl (sep : char) (s piece : jsstring) (c : char) :
  In piece (split sep s) -> In c piece -> In c s.
Proof.
  revert piece; induction s as [|x s IH]; simpl; intros piece Hp Hc.
  - destruct Hp as [<-|[]]. exact Hc.
  - destruct (x =? sep)%N.
    + destruct Hp as [<-|Hp]; [destruct Hc|]. right; eauto.
    + destruct (split sep s) as [|h t] eqn:E.
      * destruct Hp as [<-|[]]. destruct Hc as [->|[]]. now left.
      * destruct Hp as [<-|Hp].
        -- destruct Hc as [->|Hc]; [now left|].
           right. apply (IH h); simpl; auto.
        -- right. apply (IH piece); simpl; auto.
Qed.

Lemma split_first (sep : char) (s : jsstring) :
  split sep s =
  before sep s :: match after sep s with
                  | Some r => split sep r
                  | None => []
                  end.
Proof.
  unfold before, after.
  induction s as [|c s IH]; simpl; [reflexivity|].
  destruct (c =? sep)%N; simpl; [reflexivity|].
  rewrite IH. reflexivity.
Qed.

(** ** Numeric comparator: what the number scan produces *)

Local Abbreviation noEq := (Forall (fun c : char => c <> c_eq)).

Lemma digit_not_eq (c : char) : isDigit c = true -> c <> c_eq.
Proof.
  unfold isDigit, c_eq. rewrite andb_true_iff, !N.leb_le. lia.
Qed.

Lemma takeWhile_digits_noEq (s : jsstring) : noEq (takeWhile isDigit s).
Proof.
  induction s as [|c s IH]; simpl; [constructor|].
  destruct (isDigit c) eqn:E; constructor; auto using digit_not_eq.
Qed.

Lemma thousands_noEq (s : jsstring) : noEq (fst (thousands s)).
Proof.
  remember (List.length s) as n eqn:Hn.
  revert s Hn; induction n as [n IH] using lt_wf_ind; intros s ->.
  destruct s as [|c [|d1 [|d2 [|d3 rest]]]]; try (simpl; constructor).
  cbn [thousands].
  destruct ((c =? c_comma)%N && isDigit d1 && isDigit d2 && isDigit d3)
    eqn:E; [|constructor].
  rewrite !andb_true_iff in E. destruct E as [[[Hc H1] H2] H3].
  specialize (IH (List.length rest) ltac:(simpl; lia) rest eq_refl).
  destruct (thousands rest) as [m r]; simpl in *.
  apply N.eqb_eq in Hc; subst c.
  repeat constructor; auto using digit_not_eq. discriminate.
Qed.

Lemma fraction_noEq (s : jsstring) : noEq (fst (fraction s)).
Proof.
  destruct s as [|c [|d rest]]; try (simpl; constructor).
  unfold fraction.
  destruct ((c =? c_dot)%N && isDigit d) eqn:E; [|constructor].
  rewrite andb_true_iff in E. destruct E as [Hc Hd].
  apply N.eqb_eq in Hc; subst c. simpl.
  repeat constructor; auto using digit_not_eq, takeWhile_digits_noEq.
  discriminate.
Qed.

Lemma matchUnsigned_noEq (s m : jsstring) :
  matchUnsigned s = Some m -> noEq m.
Proof.
  unfold matchUnsigned. intros H.
  pose proof (takeWhile_digits_noEq s) as Hd.
  pose proof (thousands_noEq (dropWhile isDigit s)) as Hg.
  destruct (takeWhile isDigit s) as [|d ds]; [discriminate|].
  destruct (thousands (dropWhile isDigit s)) as [g r].
  pose proof (fraction_noEq r) as Hf.
  destruct (fraction r) as [f r']. injection H as <-.
  simpl in Hg, Hf. change (noEq ((d :: ds) ++ g ++ f)).
  apply Forall_app. split; [exact Hd|].
  apply Forall_app. auto.
Qed.

Lemma matchAt_noEq (s m : jsstring) : matchAt s = Some m -> noEq m.
Proof.
  destruct s as [|c s]; simpl; [discriminate|].
  destruct (N.eqb_spec c c_minus) as [->|Hne].
  - destruct (matchUnsigned s) as [m'|] eqn:E.
    + intros [= <-]. constructor; [discriminate|].
      eapply matchUnsigned_noEq; eauto.
    + apply matchUnsigned_noEq.
  - apply matchUnsigned_noEq.
Qed.

Lemma matchAllFrom_noEq (s : jsstring) (skip : nat) :
  Forall noEq (matchAllFrom skip s).
Proof.
  revert skip; induction s as [|c s IH]; intros skip;
    cbn [matchAllFrom]; [constructor|].
  destruct skip as [|k]; [|apply IH].
  destruct (matchAt (c :: s)) as [m|] eqn:E; [|apply IH].
  constructor; [eapply matchAt_noEq; eauto | apply IH].
Qed.

Lemma join_noEq (sep : jsstring) (parts : list jsstring) :
  noEq sep -> Forall noEq parts -> noEq (join sep parts).
Proof.
  intros Hs Hp; induction Hp as [|p rest Hp _ IH]; simpl; [constructor|].
  destruct rest; [exact Hp|]. rewrite !Forall_app. auto.
Qed.

(** The output of [extractNumerics] has no ['=']. *)
Lemma extractNumerics_noEq (text : jsstring) :
  ~ In c_eq (extractNumerics text).
Proof.
  assert (H : noEq (extractNumerics text)).
  { unfold extractNumerics. apply join_noEq.
    - repeat constructor. discriminate.
    - apply Forall_map.
      eapply Forall_impl; [|apply (matchAllFrom_noEq text 0)].
      intros m Hm. unfold stripCommas.
      rewrite Forall_forall in *. intros c Hc.
      apply filter_In in Hc. apply Hm, Hc. }
  rewrite Forall_forall in H. intros Hin. now apply (H _ Hin).
Qed.

(** ** Numeric comparator: lines and maps *)

Lemma parseLine_without_eq (line : jsstring) :
  ~ In c_eq line -> parseLine line = None.
Proof.
  intros H. unfold parseLine. rewrite (split_absent _ _ H). reflexivity.
Qed.

Lemma buildMap_without_eq (text : jsstring) :
  ~ In c_eq text -> buildMap (nonBlankLines text) = [].
Proof.
  intros H. unfold buildMap.
  assert (Hl : forall line, In line (nonBlankLines text) ->
                            parseLine line = None).
  { intros line Hin. apply parseLine_without_eq. intros Hc.
    apply filter_In in Hin. destruct Hin as [Hin _].
    apply H. eapply split_incl; eauto. }
  revert Hl. generalize (nonBlankLines text) as lines.
  induction lines as [|l lines IH]; intros Hl; simpl; [reflexivity|].
  unfold addLine at 2. rewrite (Hl l) by (now left).
  apply IH. intros; apply Hl; now right.
Qed.

Lemma map_get_set (k k' v : jsstring) (m : jsmap) :
  map_get k (map_set k' v m) = if streq k' k then Some v else map_get k m.
Proof.
  induction m as [|[a b] m IH]; simpl.
  - reflexivity.
  - destruct (streq_spec a k') as [->|Hne]; simpl.
    + destruct (streq k' k); reflexivity.
    + destruct (streq_spec a k) as [->|Hne'].
      * destruct (streq_spec k' k); [congruence|reflexivity].
      * exact IH.
Qed.

Lemma map_keys_get (k : jsstring) (m : jsmap) :
  In k (map_keys m) <-> map_get k m <> None.
Proof.
  induction m as [|[a b] m IH]; simpl; [tauto|].
  destruct (streq_spec a k) as [->|Hne].
  - split; [discriminate | now left].
  - rewrite <- IH. split; [intros [?|?]; tauto | now right].
Qed.

Lemma parseLine_truthy (line k v : jsstring) :
  parseLine line = Some (k, v) -> truthy k = true /\ truthy v = true.
Proof.
  unfold parseLine.
  destruct (nth_error _ 0) as [a|]; [|discriminate].
  destruct (nth_error _ 1) as [b|]; [|discriminate].
  destruct (truthy a && truthy b) eqn:E; [|discriminate].
  intros [= <- <-]. now apply andb_true_iff.
Qed.

(** Every value stored by [buildMap] is a non-empty string. *)
Lemma buildMap_values_truthy (lines : list jsstring) (k v : jsstring) :
  map_get k (buildMap lines) = Some v -> truthy v = true.
Proof.
  unfold buildMap.
  assert (H0 : forall k v, map_get k (@nil (jsstring * jsstring)) = Some v ->
                           truthy v = true) by discriminate.
  revert k v. generalize dependent (@nil (jsstring * jsstring)).
  induction lines as [|l lines IH]; intros m Hm k v; simpl; [apply Hm|].
  apply IH. intros k' v'. unfold addLine.
  destruct (parseLine l) as [[a b]|] eqn:E; [|apply Hm].
  rewrite map_get_set. destruct (streq a k').
  - intros [= <-]. eapply parseLine_truthy; eauto.
  - apply Hm.
Qed.

Lemma mem_In (k : jsstring) (l : list jsstring) : mem k l = true <-> In k l.
Proof.
  unfold mem. rewrite existsb_exists. split.
  - intros [x [Hx E]]. apply streq_eq in E. now subst.
  - intros H. exists k. split; [exact H | apply streq_refl].
Qed.

Lemma set_of_In (l : list jsstring) (k : jsstring) :
  In k (set_of l) <-> In k l.
Proof.
  unfold set_of.
  enough (H : forall acc, In k (fold_left
              (fun acc k => if mem k acc then acc else acc ++ [k]) l acc)
              <-> In k acc \/ In k l).
  { rewrite H. simpl. tauto. }
  induction l as [|x l IH]; intros acc; simpl; [tauto|].
  rewrite IH. destruct (mem x acc) eqn:E.
  - apply mem_In in E. split; [tauto|]. intros [?|[<-|?]]; auto.
  - rewrite in_app_iff. simpl. tauto.
Qed.

Lemma set_of_NoDup (l : list jsstring) : NoDup (set_of l).
Proof.
  unfold set_of.
  enough (H : forall acc, NoDup acc -> NoDup (fold_left
              (fun acc k => if mem k acc then acc else acc ++ [k]) l acc)).
  { apply H. constructor. }
  induction l as [|x l IH]; intros acc Hacc; simpl; [exact Hacc|].
  apply IH. destruct (mem x acc) eqn:E; [exact Hacc|].
  assert (Hx : ~ In x acc).
  { intros Hin. apply mem_In in Hin. congruence. }
  clear E IH. induction acc as [|a acc IHa]; simpl.
  - constructor; [tauto | constructor].
  - inversion Hacc; subst. constructor.
    + rewrite in_app_iff. simpl. intros [?|[?|[]]]; [tauto|].
      subst. apply Hx. now left.
    + apply IHa; auto. intros ?. apply Hx. now right.
Qed.

Lemma compareKeys_In (o n : jsmap) (vars : list jsstring)
    (c : NumericChange) :
  In c (compareKeys o n vars) <->
  exists k, In k vars /\ getOrZero o k <> getOrZero n k /\
            c = {| category := k; oldValue := getOrZero o k;
                   newValue := getOrZero n k; type := str "change" |}.
Proof.
  unfold compareKeys. rewrite in_flat_map. split.
  - intros [k [Hk Hc]]. exists k. split; [exact Hk|].
    destruct (streq_spec (getOrZero o k) (getOrZero n k)) as [E|E].
    + destruct Hc.
    + destruct Hc as [<-|[]]. auto.
  - intros [k [Hk [Hne ->]]]. exists k. split; [exact Hk|].
    destruct (streq_spec (getOrZero o k) (getOrZero n k)); [tauto|].
    now left.
Qed.

Lemma compareKeys_categories (o n : jsmap) (vars : list jsstring) :
  map category (compareKeys o n vars) =
  filter (fun k => negb (streq (getOrZero o k) (getOrZero n k))) vars.
Proof.
  induction vars as [|k vars IH]; simpl; [reflexivity|].
  rewrite map_app, IH.
  destruct (streq (getOrZero o k) (getOrZero n k)); reflexivity.
Qed.

Lemma map_get_app (k : jsstring) (a b : jsmap) :
  map_get k (a ++ b) =
  match map_get k a with Some v => Some v | None => map_get k b end.
Proof.
  induction a as [|[x y] a IH]; simpl; [reflexivity|].
  destruct (streq x k); [reflexivity | exact IH].
Qed.

Lemma fold_addLine_get (lines : list jsstring) (m : jsmap) (k : jsstring) :
  map_get k (fold_left addLine lines m) =
  match map_get k (rev (lineEntries lines)) with
  | Some v => Some v
  | None => map_get k m
  end.
Proof.
  revert m; induction lines as [|l lines IH]; intros m; simpl;
    [reflexivity|].
  rewrite IH, rev_app_distr, map_get_app.
  destruct (map_get k (rev (lineEntries lines))); [reflexivity|].
  unfold addLine. destruct (parseLine l) as [[a b]|]; simpl; [|reflexivity].
  rewrite map_get_set. destruct (streq a k); reflexivity.
Qed.

Lemma getOrZero_buildMap (lines : list jsstring) (k : jsstring) :
  getOrZero (buildMap lines) k = valueOrZero (buildMap lines) k.
Proof.
  unfold getOrZero, valueOrZero.
  destruct (map_get k (buildMap lines)) as [v|] eqn:E; [|reflexivity].
  now rewrite (buildMap_values_truthy _ _ E).
Qed.

(** ** Numeric comparator: the claims *)

(** C2. In numeric-only mode [handleCompare] reports nothing: the output of
    [extractNumerics] has no ['='], so [parseNumericComparison] skips every
    line of it, both maps stay empty and its result is the empty list for
    every pair of texts; hence no section is pushed to the results. *)
Theorem C2_numeric_mode_reports_nothing
    (diffLines : jsstring -> jsstring -> list App.DiffPart)
    (st : App.State) (Hnum : App.onlyNumeric st = true) :
  (forall text, ~ In c_eq (extractNumerics text)) /\
  (forall text, buildMap (nonBlankLines (extractNumerics text)) = []) /\
  (forall oldText newText sectionTitle,
      parseNumericComparison (extractNumerics oldText)
                             (extractNumerics newText) sectionTitle = []) /\
  App.comparisonResult (App.handleCompare diffLines st) = [].
Proof.
  assert (Hmap : forall text,
             buildMap (nonBlankLines (extractNumerics text)) = []).
  { intros text. apply buildMap_without_eq, extractNumerics_noEq. }
  assert (Hcmp : forall oldText newText sectionTitle,
      parseNumericComparison (extractNumerics oldText)
                             (extractNumerics newText) sectionTitle = []).
  { intros. unfold parseNumericComparison. rewrite !Hmap. reflexivity. }
  repeat split; auto using extractNumerics_noEq.
  unfold App.handleCompare. simpl.
  induction (App.combinedSections st) as [|t l IH]; simpl; [reflexivity|].
  rewrite IH, app_nil_r. unfold App.compareSection. simpl.
  rewrite Hnum, Hcmp.
  destruct (App.isSelected (App.selectedSections st) t); reflexivity.
Qed.

(** C6, as amended. A line is parsed at its first ['=']: the key is the
    trimmed text before it and the value the trimmed text between it and
    the next ['='] (the end of the line when there is none), so
    ['a = b = c'] maps ['a'] to ['b']; a line without ['='], or with an
    empty key or value, is skipped; the last line of a key wins. *)
Theorem C6_value_ends_at_second_equals :
  (forall line,
      parseLine line =
      match after c_eq line with
      | None => None
      | Some r =>
          let variable := trim (before c_eq line) in
          let value := trim (before c_eq r) in
          if truthy variable && truthy value
          then Some (variable, value) else None
      end) /\
  (forall lines k,
      map_get k (buildMap lines) = map_get k (rev (lineEntries lines))) /\
  buildMap (nonBlankLines (str "a = b = c")) = [(str "a", str "b")].
Proof.
  split; [|split].
  - intros line. unfold parseLine. rewrite (split_first c_eq line).
    destruct (after c_eq line) as [r|]; [|reflexivity].
    rewrite (split_first c_eq r). reflexivity.
  - intros lines k. unfold buildMap. rewrite fold_addLine_get.
    destruct (map_get k (rev (lineEntries lines))); reflexivity.
  - vm_compute. reflexivity.
Qed.

(** C6 as stated fails: the value of ['a = b = c'] is not ['b = c']. *)
Lemma C6_remainder_not_kept :
  map_get (str "a") (buildMap (nonBlankLines (str "a = b = c")))
  <> Some (str "b = c").
Proof. vm_compute. discriminate. Qed.

(** C7. Old text ["rate = 10"] against new text ["rate = 10\nfee = 5"]
    gives the single change of ["fee"] from ["0"] to ["5"]. In general the
    changes are exactly those of the keys of either map whose two values,
    the missing side read as ["0"], differ, one change per key. *)
Theorem C7_numeric_key_defaulting :
  (forall sectionTitle,
      parseNumericComparison (str "rate = 10") (str "rate = 10
fee = 5") sectionTitle = [change (str "fee") (str "0") (str "5")]) /\
  (forall oldText newText sectionTitle,
      let oldMap := buildMap (nonBlankLines oldText) in
      let newMap := buildMap (nonBlankLines newText) in
      let result := parseNumericComparison oldText newText sectionTitle in
      (forall c, In c result <->
         exists k, (In k (map_keys oldMap) \/ In k (map_keys newMap)) /\
                   valueOrZero oldMap k <> valueOrZero newMap k /\
                   c = change k (valueOrZero oldMap k)
                                (valueOrZero newMap k)) /\
      NoDup (map category result)).
Proof.
  split.
  - intros sectionTitle. vm_compute. reflexivity.
  - intros oldText newText sectionTitle oldMap newMap result.
    subst result. unfold parseNumericComparison. fold oldMap newMap.
    split.
    + intros c. rewrite compareKeys_In.
      unfold oldMap, newMap. setoid_rewrite getOrZero_buildMap.
      setoid_rewrite set_of_In. setoid_rewrite in_app_iff.
      reflexivity.
    + rewrite compareKeys_categories. apply NoDup_filter, set_of_NoDup.
Qed.

(** ** Outline traversal *)

Lemma OutlineItem_induction (P : OutlineItem -> Prop) :
  (forall t d its, Forall P its -> P (Item t d its)) ->
  forall item, P item.
Proof.
  intros HItem. fix IH 1. intros [t d its]. apply HItem.
  induction its as [|it its IHits]; constructor; [apply IH | exact IHits].
Qed.

Local Abbreviation allValid := (Forall (fun s => hasValidPage s = true)).

Lemma tryItem_resolves (pdf : Document) (lvl : nat) (t : jsstring)
    (d : Dest) (sections : list Sect) :
  exists sections', tryItem pdf lvl t d sections = Ok sections'.
Proof.
  unfold tryItem. destruct (truthy t && truthy (trim t)); eauto.
Qed.

(** A pushed section is always flagged valid: when the destination gave no
    page, [pageNum] already holds the estimate by the time the flag is
    computed. *)
Lemma visitItem_valid (pdf : Document) (lvl : nat) (t : jsstring)
    (d : Dest) (sections : list Sect) :
  allValid sections -> allValid (visitItem pdf lvl t d sections).
Proof.
  intros H. unfold visitItem, tryItem.
  destruct (truthy t) eqn:Et; simpl; [|exact H].
  destruct (truthy (trim t)); [|exact H].
  apply Forall_app. split; [exact H|].
  constructor; [|constructor]. simpl.
  destruct (resolvePage pdf d); reflexivity.
Qed.

Lemma processItem_valid (pdf : Document) (item : OutlineItem) :
  forall lvl sections,
    allValid sections -> allValid (processItem pdf lvl item sections).
Proof.
  induction item as [t d its IH] using OutlineItem_induction.
  intros lvl sections H. cbn [processItem].
  pose proof (visitItem_valid pdf lvl t d H) as H1.
  destruct its as [|it its]; [exact H1|].
  revert H1. generalize (visitItem pdf lvl t d sections) as acc.
  induction IH as [|x l Hx _ IHl]; intros acc Hacc; simpl; [exact Hacc|].
  apply IHl, Hx, Hacc.
Qed.

Lemma processOutline_valid (pdf : Document) (outlineItems : list OutlineItem)
    (lvl : nat) (sections : list Sect) :
  allValid sections -> allValid (processOutline pdf outlineItems lvl sections).
Proof.
  unfold processOutline. revert sections.
  induction outlineItems as [|it l IH]; intros sections H; simpl;
    [exact H|].
  apply IH, processItem_valid, H.
Qed.

(** C1 (the code departs from the claim). An entry ["A"] without
    destination is pushed with the estimated page 1 = 0 + 1 but with
    [hasValidPage = true]; indeed no traversal ever produces a section
    with [hasValidPage = false]. *)
Theorem C1_estimated_section_flagged_valid :
  (forall pdf,
      processOutline pdf [Item (str "A") DNull []] 0 [] =
      [{| Pdf.title := str "A"; startPage := 1; level := Some 0;
          hasValidPage := true |}]) /\
  (forall pdf outlineItems lvl,
      Forall (fun s => hasValidPage s = true)
             (processOutline pdf outlineItems lvl [])).
Proof.
  split.
  - intros pdf. reflexivity.
  - intros. apply processOutline_valid. constructor.
Qed.

(** ** Sorting by start page *)

Lemma insertByPage_In (x z : Sect) (l : list Sect) :
  In z (insertByPage x l) <-> z = x \/ In z l.
Proof.
  induction l as [|y l IH]; simpl.
  - intuition congruence.
  - destruct (startPage x <=? startPage y); simpl.
    + intuition congruence.
    + rewrite IH. intuition congruence.
Qed.

Lemma sortByPage_In (z : Sect) (l : list Sect) :
  In z (sortByPage l) <-> In z l.
Proof.
  induction l as [|x l IH]; simpl; [tauto|].
  rewrite insertByPage_In, IH. intuition congruence.
Qed.

Lemma insertByPage_sorted (x : Sect) (l : list Sect) :
  StronglySorted pageLe l -> StronglySorted pageLe (insertByPage x l).
Proof.
  induction 1 as [|y l Hs IH Hy]; simpl.
  - repeat constructor.
  - destruct (Nat.leb_spec (startPage x) (startPage y)) as [Hle|Hgt].
    + constructor; [constructor; assumption|].
      constructor; [exact Hle|].
      rewrite Forall_forall in *. intros z Hz. specialize (Hy z Hz).
      unfold pageLe in *. lia.
    + constructor; [exact IH|].
      rewrite Forall_forall in *. intros z Hz.
      apply insertByPage_In in Hz. destruct Hz as [->|Hz]; auto.
      unfold pageLe. lia.
Qed.

Lemma sortByPage_sorted (l : list Sect) : StronglySorted pageLe (sortByPage l).
Proof.
  induction l as [|x l IH]; simpl; [constructor|].
  now apply insertByPage_sorted.
Qed.

(** Inserting below every element puts the section in front. *)
Lemma insertByPage_front (x : Sect) (l : list Sect) :
  Forall (pageLe x) l -> insertByPage x l = x :: l.
Proof.
  intros H. destruct H as [|y l Hy _]; simpl; [reflexivity|].
  unfold pageLe in Hy. apply Nat.leb_le in Hy. now rewrite Hy.
Qed.

(** A sorted array is left as it is. *)
Lemma sortByPage_id (l : list Sect) :
  StronglySorted pageLe l -> sortByPage l = l.
Proof.
  induction 1 as [|x l Hs IH Hx]; simpl; [reflexivity|].
  rewrite IH. now apply insertByPage_front.
Qed.

(** Stability, in the form needed here: the sort keeps the relative order
    of the sections selected by any predicate. *)
Lemma filter_insertByPage (p : Sect -> bool) (x : Sect) (l : list Sect) :
  StronglySorted pageLe l ->
  filter p (insertByPage x l) =
  if p x then insertByPage x (filter p l) else filter p l.
Proof.
  induction 1 as [|y l Hs IH Hy]; simpl.
  - destruct (p x); reflexivity.
  - destruct (Nat.leb_spec (startPage x) (startPage y)) as [Hle|Hgt].
    + simpl. destruct (p x) eqn:Ex; [|reflexivity].
      symmetry. apply insertByPage_front.
      assert (Hall : Forall (pageLe x) (y :: l)).
      { constructor; [exact Hle|].
        rewrite Forall_forall in *. intros z Hz. specialize (Hy z Hz).
        unfold pageLe in *. lia. }
      rewrite Forall_forall in *. intros z Hz.
      apply Hall. change (In z (filter p (y :: l))) in Hz.
      apply filter_In in Hz. tauto.
    + simpl. rewrite IH. destruct (p y) eqn:Ey, (p x) eqn:Ex; simpl;
        try reflexivity.
      destruct (Nat.leb_spec (startPage x) (startPage y)); [lia|].
      reflexivity.
Qed.

Lemma filter_sortByPage (p : Sect -> bool) (l : list Sect) :
  filter p (sortByPage l) = sortByPage (filter p l).
Proof.
  induction l as [|x l IH]; simpl; [reflexivity|].
  rewrite filter_insertByPage by apply sortByPage_sorted.
  rewrite IH. destruct (p x); reflexivity.
Qed.

(** ** Page estimation *)

Lemma assignPages_nth (f : nat -> nat) (l : list Sect) (i0 r : nat) :
  nth_error (assignPages f l i0) r =
  option_map (fun s => setStartPage s (f (i0 + r))) (nth_error l r).
Proof.
  revert i0 r; induction l as [|x l IH]; intros i0 [|r]; simpl;
    try reflexivity.
  - now rewrite Nat.add_0_r.
  - rewrite IH. now rewrite Nat.add_succ_comm.
Qed.

Lemma assignPages_length (f : nat -> nat) (l : list Sect) (i0 : nat) :
  List.length (assignPages f l i0) = List.length l.
Proof.
  revert i0; induction l as [|x l IH]; intros i0; simpl; [reflexivity|].
  now rewrite IH.
Qed.

Lemma assignPages_In (f : nat -> nat) (l : list Sect) (i0 : nat) (z : Sect) :
  In z (assignPages f l i0) ->
  exists s i, In s l /\ i0 <= i /\ z = setStartPage s (f i).
Proof.
  revert i0; induction l as [|x l IH]; intros i0; simpl; [tauto|].
  intros [<-|H].
  - exists x, i0. auto.
  - destruct (IH _ H) as [s [i [Hs [Hi ->]]]].
    exists s, i. repeat split; auto. lia.
Qed.

Lemma assignPages_sorted (f : nat -> nat) (l : list Sect) (i0 : nat) :
  (forall i j, i <= j -> f i <= f j) ->
  StronglySorted pageLe (assignPages f l i0).
Proof.
  intros Hf. revert i0; induction l as [|x l IH]; intros i0; simpl;
    constructor; [apply IH|].
  rewrite Forall_forall. intros z Hz.
  destruct (assignPages_In _ _ _ _ Hz) as [s [i [_ [Hi ->]]]].
  unfold pageLe. simpl. apply Hf. lia.
Qed.

Lemma assignPages_filter (p : Sect -> bool) (f : nat -> nat)
    (l : list Sect) (i0 : nat) :
  (forall s n, p (setStartPage s n) = p s) ->
  Forall (fun s => p s = true) l ->
  filter p (assignPages f l i0) = assignPages f l i0.
Proof.
  intros Hp H. revert i0; induction H as [|x l Hx _ IH]; intros i0; simpl;
    [reflexivity|].
  rewrite Hp, Hx, IH. reflexivity.
Qed.

Lemma filter_none (A : Type) (p : A -> bool) (l : list A) :
  Forall (fun x => p x = false) l -> filter p l = [].
Proof.
  induction 1 as [|x l Hx _ IH]; simpl; [reflexivity|].
  now rewrite Hx.
Qed.

Lemma filter_Forall (A : Type) (p : A -> bool) (l : list A) :
  Forall (fun x => p x = true) (filter p l).
Proof.
  rewrite Forall_forall. intros x Hx. apply filter_In in Hx. tauto.
Qed.

(** With a resolved section present, the unresolved ones come out of
    [estimatePages] in discovery order, with the evenly spread pages. *)
Lemma estimatePages_unresolved (P : nat) (sections : list Sect) :
  filter hasValidPage sections <> [] ->
  filter unresolved (estimatePages P sections) =
  assignPages
    (fun index =>
       ceilDiv P (List.length (filter unresolved sections) + 1) * (index + 1))
    (filter unresolved sections) 0.
Proof.
  intros Hv. unfold estimatePages. fold unresolved.
  destruct (filter hasValidPage sections) as [|v vs] eqn:Ev; [congruence|].
  cbn [List.length Nat.ltb Nat.leb]. rewrite <- Ev.
  set (f := fun index => _ * (index + 1)).
  rewrite filter_sortByPage, filter_app, filter_sortByPage.
  rewrite (@filter_none _ unresolved (filter hasValidPage sections)).
  - simpl. rewrite assignPages_filter.
    + apply sortByPage_id, assignPages_sorted.
      intros i j Hij. unfold f. apply Nat.mul_le_mono_l. lia.
    + reflexivity.
    + apply filter_Forall.
  - eapply Forall_impl; [|apply filter_Forall].
    intros s Hs. unfold unresolved. simpl in Hs. now rewrite Hs.
Qed.

Lemma clampPages_filter (P : nat) (l : list Sect) :
  filter unresolved (clampPages P l) = clampPages P (filter unresolved l).
Proof.
  induction l as [|x l IH]; simpl; [reflexivity|].
  change (unresolved (setStartPage x (Nat.min (startPage x) P)))
    with (unresolved x).
  destruct (unresolved x); simpl; now rewrite IH.
Qed.

(** [ceilDiv] is the ceiling of the quotient: the least [c] with
    [a <= c * b]. *)
Lemma ceilDiv_ceiling (a b : nat) :
  0 < b ->
  a <= ceilDiv a b * b /\ (0 < a -> (ceilDiv a b - 1) * b < a).
Proof.
  intros Hb. unfold ceilDiv.
  pose proof (Nat.div_mod_eq (a + b - 1) b) as E.
  pose proof (Nat.mod_upper_bound (a + b - 1) b ltac:(lia)) as Hm.
  split; [nia|]. intros Ha. nia.
Qed.

(** The estimation step on sections that hold a resolved one: the
    unresolved ones keep their discovery order and the one of rank [r]
    (from 1) among them is given the page [c * r], where [c] is the
    ceiling of [P / (n + 1)], [n] being their number; with [n = 4] and
    [P = 20] these pages are 4, 8, 12 and 16, also after the clamp. *)
Lemma estimatePages_spread (P : nat) (sections : list Sect)
    (Hvalid : exists s, In s sections /\ hasValidPage s = true) :
  let invalid := filter unresolved sections in
  let n := List.length invalid in
  let estimated := filter unresolved (estimatePages P sections) in
  (P <= ceilDiv P (n + 1) * (n + 1) /\
   (0 < P -> (ceilDiv P (n + 1) - 1) * (n + 1) < P)) /\
  List.length estimated = n /\
  (forall r s, 1 <= r -> nth_error invalid (r - 1) = Some s ->
     nth_error estimated (r - 1) =
     Some (setStartPage s (ceilDiv P (n + 1) * r))) /\
  (P = 20 -> n = 4 ->
     map startPage estimated = [4; 8; 12; 16] /\
     map startPage
         (filter unresolved (clampPages P (estimatePages P sections)))
     = [4; 8; 12; 16]).
Proof.
  intros invalid n estimated.
  assert (Hne : filter hasValidPage sections <> []).
  { destruct Hvalid as [s [Hin Hs]]. intros E.
    assert (Hf : In s (filter hasValidPage sections))
      by (apply filter_In; auto).
    rewrite E in Hf. destruct Hf. }
  assert (Eest : estimated =
            assignPages (fun index => ceilDiv P (n + 1) * (index + 1))
                        invalid 0).
  { subst estimated. now rewrite estimatePages_unresolved. }
  split; [apply ceilDiv_ceiling; lia|].
  split; [|split].
  - rewrite Eest. apply assignPages_length.
  - intros r s Hr Hs. rewrite Eest, assignPages_nth, Hs. simpl.
    replace (r - 1 + 1) with r by lia. reflexivity.
  - intros -> Hn. rewrite clampPages_filter. fold estimated.
    rewrite Eest, Hn. clear Eest estimated Hne Hvalid. subst n.
    destruct invalid as [|a [|b [|c [|d [|e l]]]]]; try discriminate.
    split; reflexivity.
Qed.

(** ** Section text extraction *)

Lemma skip_guard (P j : nat) : (P <? j) || (j <? 1) = negb (inRange P j).
Proof.
  unfold inRange.
  destruct (Nat.ltb_spec P j), (Nat.ltb_spec j 1), (Nat.leb_spec 1 j),
    (Nat.leb_spec j P); simpl; try reflexivity; lia.
Qed.

Lemma readPages_spec (pdf : Document) (count j : nat) (txt : jsstring)
    (fetched : list nat) :
  readPages pdf j count txt fetched =
  (txt ++ List.concat (map (pageText pdf)
                      (filter (inRange (numPages pdf)) (seq j count))),
   fetched ++ filter (inRange (numPages pdf)) (seq j count)).
Proof.
  revert j txt fetched; induction count as [|count IH]; intros j txt fetched.
  - simpl. now rewrite !app_nil_r.
  - cbn [readPages seq filter]. rewrite skip_guard.
    destruct (inRange (numPages pdf) j); cbn [negb]; rewrite IH.
    + simpl. unfold pageText at 2. now rewrite <- !app_assoc.
    + reflexivity.
Qed.

Lemma extractSections_cons (pdf : Document) (s : Sect) (rest : list Sect) :
  extractSections pdf (s :: rest) =
  ({| Extracted.title := Pdf.title s;
      Extracted.text :=
        List.concat (map (pageText pdf)
                    (filter (inRange (numPages pdf))
                            (pageRange (startPage s) (endBound pdf rest)))) |},
   filter (inRange (numPages pdf))
          (pageRange (startPage s) (endBound pdf rest)))
  :: extractSections pdf rest.
Proof.
  cbn [extractSections]. rewrite readPages_spec. reflexivity.
Qed.

Lemma extractSections_nth (pdf : Document) (sections : list Sect) (i : nat)
    (s : Sect) :
  nth_error sections i = Some s ->
  nth_error (extractSections pdf sections) i =
  Some ({| Extracted.title := Pdf.title s;
           Extracted.text :=
             List.concat (map (pageText pdf)
                      (filter (inRange (numPages pdf))
                         (pageRange (startPage s)
                            (endPageBound (numPages pdf) sections i)))) |},
        filter (inRange (numPages pdf))
               (pageRange (startPage s)
                          (endPageBound (numPages pdf) sections i))).
Proof.
  revert i; induction sections as [|x rest IH]; intros [|i] H;
    try discriminate; rewrite extractSections_cons.
  - injection H as ->. unfold endPageBound, endBound. simpl.
    destruct rest; reflexivity.
  - simpl in H. simpl nth_error at 1. rewrite (IH _ H). reflexivity.
Qed.

(** Over sorted sections that start no later than the last page, the pages
    fetched are those from the first start on, in increasing order. *)
Lemma fetched_sorted_sections (pdf : Document) (sections : list Sect) :
  StronglySorted pageLe sections ->
  Forall (fun s => startPage s <= numPages pdf) sections ->
  sections <> [] ->
  List.concat (map snd (extractSections pdf sections)) =
  filter (inRange (numPages pdf))
         (pageRange (firstStart sections) (numPages pdf + 1)).
Proof.
  induction 1 as [|s rest Hs IH Hhd]; intros Hle Hne; [congruence|].
  rewrite extractSections_cons. cbn [map snd List.concat firstStart].
  inversion Hle as [|? ? Hs_le Hrest]; subst.
  destruct rest as [|next rest'].
  - simpl. now rewrite app_nil_r.
  - rewrite IH by (auto; discriminate).
    rewrite <- filter_app. f_equal.
    cbn [endBound firstStart]. unfold pageRange.
    inversion Hhd as [|? ? Hn _]; subst. unfold pageLe in Hn.
    inversion Hrest as [|? ? Hnext _]; subst.
    replace (numPages pdf + 1 - startPage s)
      with ((startPage next - startPage s)
            + (numPages pdf + 1 - startPage next)) by lia.
    rewrite seq_app. do 2 f_equal. lia.
Qed.

(** ** The final sections are sorted and within the document *)

Lemma estimatePages_sorted (P : nat) (sections : list Sect) :
  StronglySorted pageLe (estimatePages P sections).
Proof.
  unfold estimatePages.
  destruct (0 <? List.length (filter hasValidPage sections)).
  - apply sortByPage_sorted.
  - apply assignPages_sorted. intros i j Hij.
    apply Nat.add_le_mono_r, Nat.mul_le_mono_l, Hij.
Qed.

Lemma tocSections_sorted (pdf : Document) :
  StronglySorted pageLe (tocSections pdf).
Proof.
  unfold tocSections. destruct (getOutline pdf) as [[|it outline]|];
    try constructor.
  destruct (processOutline pdf (it :: outline) 0 []) as [|s l] eqn:E.
  - constructor.
  - cbn [List.length Nat.ltb Nat.leb]. apply estimatePages_sorted.
Qed.

Lemma clampPages_sorted (P : nat) (l : list Sect) :
  StronglySorted pageLe l -> StronglySorted pageLe (clampPages P l).
Proof.
  induction 1 as [|x l Hs IH Hx]; simpl; constructor; [exact IH|].
  unfold clampPages. rewrite Forall_map.
  eapply Forall_impl; [|exact Hx].
  intros y Hy. unfold pageLe in *. simpl. lia.
Qed.

Lemma clampPages_bounded (P : nat) (l : list Sect) :
  Forall (fun s => startPage s <= P) (clampPages P l).
Proof.
  unfold clampPages. rewrite Forall_map. rewrite Forall_forall.
  intros x _. simpl. lia.
Qed.

Lemma pageSections_eq (P : nat) : pageSections P = map pageSection (seq 1 P).
Proof. reflexivity. Qed.

Lemma pageSection_seq_sorted (a P : nat) :
  StronglySorted pageLe (map pageSection (seq a P)).
Proof.
  revert a; induction P as [|P IH]; intros a; simpl; constructor;
    [apply IH|].
  rewrite Forall_map, Forall_forall. intros j Hj. apply in_seq in Hj.
  unfold pageLe. simpl. lia.
Qed.

Lemma pageSections_bounded (P : nat) :
  Forall (fun s => startPage s <= P) (pageSections P).
Proof.
  rewrite pageSections_eq, Forall_map, Forall_forall.
  intros j Hj. apply in_seq in Hj. simpl. lia.
Qed.

Lemma finalSections_shape (pdf : Document) :
  let sections := fst (finalSections pdf) in
  StronglySorted pageLe sections /\
  Forall (fun s => startPage s <= numPages pdf) sections /\
  (sections = [] -> numPages pdf = 0).
Proof.
  unfold finalSections.
  pose proof (tocSections_sorted pdf) as Hs.
  destruct (tocSections pdf) as [|s l]; cbn [fst].
  - split; [apply pageSection_seq_sorted|].
    split; [apply pageSections_bounded|].
    destruct (numPages pdf); [reflexivity | discriminate].
  - split; [now apply clampPages_sorted|].
    split; [apply clampPages_bounded | discriminate].
Qed.

(** In fallback mode every page is fetched, once, in order. *)
Lemma fetched_pageSections (pdf : Document) :
  List.concat (map snd (extractSections pdf (pageSections (numPages pdf))))
  = seq 1 (numPages pdf).
Proof.
  pose proof (@fetched_sorted_sections pdf (pageSections (numPages pdf))) as H.
  pose proof (pageSections_bounded (numPages pdf)) as Hb.
  destruct (numPages pdf) as [|n]; [reflexivity|].
  rewrite H; [|apply pageSection_seq_sorted | exact Hb | discriminate].
  change (firstStart (pageSections (S n))) with 1.
  unfold pageRange. replace (S n + 1 - 1) with (S n) by lia.
  apply forallb_filter_id. apply forallb_forall.
  intros j Hj. apply in_seq in Hj. unfold inRange.
  apply andb_true_iff. rewrite !Nat.leb_le. lia.
Qed.

(** ** Sections and text: the claims *)

(** C4, as amended. The pages fetched for the final sections are fetched
    once each, and they are the pages of [1..P] from the start page of the
    first section on: the pages before it are read for no section. After
    the page fallback the first section starts at page 1 and every page of
    [1..P] is fetched exactly once. *)
Theorem C4_pages_fetched_once_from_first_start (pdf : Document) :
  let P := numPages pdf in
  let fetched := List.concat (pagesFetched pdf) in
  NoDup fetched /\
  (forall j, In j fetched <->
             1 <= j <= P /\ firstStart (fst (finalSections pdf)) <= j) /\
  List.concat (map snd (extractSections pdf (pageSections P))) = seq 1 P.
Proof.
  intros P fetched. subst P.
  destruct (finalSections_shape pdf) as [Hs [Hb H0]].
  assert (E : fetched =
              match fst (finalSections pdf) with
              | [] => []
              | _ :: _ =>
                  filter (inRange (numPages pdf))
                    (pageRange (firstStart (fst (finalSections pdf)))
                               (numPages pdf + 1))
              end).
  { subst fetched. unfold pagesFetched.
    destruct (fst (finalSections pdf)) as [|s l] eqn:El; [reflexivity|].
    apply fetched_sorted_sections; auto. discriminate. }
  split; [|split].
  - rewrite E. destruct (fst (finalSections pdf)); [constructor|].
    apply NoDup_filter, seq_NoDup.
  - intros j. rewrite E.
    destruct (fst (finalSections pdf)) as [|s l] eqn:El.
    + specialize (H0 eq_refl). simpl. lia.
    + rewrite filter_In. unfold pageRange, inRange.
      rewrite in_seq, andb_true_iff, !Nat.leb_le.
      inversion Hb; subst. simpl firstStart in *. lia.
  - apply fetched_pageSections.
Qed.

(** C4 as stated fails: with the only outline entry on page 3 of a
    five-page document, pages 1 and 2 are fetched for no section. *)
Lemma C4_leading_pages_not_covered :
  fst (finalSections (oneEntry 2)) =
    [{| Pdf.title := str "A"; startPage := 3; level := Some 0;
        hasValidPage := true |}] /\
  List.concat (pagesFetched (oneEntry 2)) = [3; 4; 5] /\
  ~ In 1 (List.concat (pagesFetched (oneEntry 2))).
Proof.
  split; [reflexivity|]. split; [reflexivity|].
  vm_compute. intuition discriminate.
Qed.

(** C5, as amended. The text of the section at index [i] is the
    concatenation, with nothing in between, of the texts of the pages from
    its start page to its end page that lie in [1..P]; the text of a page
    is its text items joined by single spaces. *)
Theorem C5_page_texts_concatenated (pdf : Document) (sections : list Sect)
    (i : nat) (s : Sect) (Hs : nth_error sections i = Some s) :
  nth_error (map fst (extractSections pdf sections)) i =
  Some {| Extracted.title := Pdf.title s;
          Extracted.text :=
            List.concat
              (map (pageText pdf)
                   (filter (inRange (numPages pdf))
                      (pageRange (startPage s)
                         (endPageBound (numPages pdf) sections i)))) |}.
Proof.
  rewrite nth_error_map, (extractSections_nth pdf _ _ Hs). reflexivity.
Qed.

(** C5 as stated fails: the texts of pages 1 to 5 of the section ["A"]
    are not separated by spaces. *)
Lemma C5_no_space_between_pages :
  map Extracted.text (fst (parsePdf (oneEntry 0))) =
    [str "p1 qp2 qp3 qp4 qp5 q"] /\
  map Extracted.text (fst (parsePdf (oneEntry 0))) <>
    [join [c_space] (map (pageText (oneEntry 0)) [1; 2; 3; 4; 5])].
Proof.
  split; [vm_compute; reflexivity | vm_compute; discriminate].
Qed.



(** ** Export rows *)

Lemma nth_error_middle (A : Type) (pre suf : list A) :
  nth_error (pre ++ suf) (List.length pre) = hd_error suf.
Proof.
  induction pre as [|x pre IH]; simpl; [now destruct suf | exact IH].
Qed.

(** [changes[i + 1]] under its bounds check is the part after the
    current one, if any. *)
Lemma next_part (A : Type) (pre : list A) (current : A) (rest : list A) :
  (if List.length pre + 1 <? List.length (pre ++ current :: rest)
   then nth_error (pre ++ current :: rest) (List.length pre + 1)
   else None) = hd_error rest.
Proof.
  replace (pre ++ current :: rest) with ((pre ++ [current]) ++ rest)
    by (now rewrite <- app_assoc).
  replace (List.length pre + 1) with (List.length (pre ++ [current]))
    by (rewrite length_app; reflexivity).
  rewrite nth_error_middle.
  destruct rest as [|n rest]; simpl.
  - now destruct (_ <? _).
  - rewrite !length_app. simpl.
    destruct (Nat.ltb_spec (List.length pre + 1)
                           (List.length pre + 1 + S (List.length rest)));
      [reflexivity | lia].
Qed.

(** The loop at index [i = |pre|] over [pre ++ suf], with enough fuel,
    appends the paired rows of [suf]. *)
Lemma exportLoop_suffix (t : jsstring) (numeric : bool) (fuel : nat) :
  forall pre suf acc,
    Forall (fun part => changed part = true) suf ->
    List.length suf <= fuel ->
    App.exportLoop fuel t numeric (pre ++ suf) (List.length pre) acc =
    acc ++ pairRows t numeric suf.
Proof.
  induction fuel as [|fuel IH]; intros pre suf acc Hch Hlen.
  - destruct suf; [|simpl in Hlen; lia]. simpl. now rewrite app_nil_r.
  - cbn [App.exportLoop]. rewrite nth_error_middle.
    destruct suf as [|current rest]; simpl hd_error;
      [simpl; now rewrite app_nil_r|].
    rewrite next_part.
    inversion Hch as [|? ? Hc Hrest]; subst.
    simpl in Hlen. unfold App.exportStep. fold (textRow t numeric).
    cbn [pairRows].
    destruct (App.removed current) eqn:Er.
    + destruct rest as [|next rest']; simpl hd_error.
      * simpl andb. cbv iota.
        replace (List.length pre + 1)
          with (List.length (pre ++ [current]))
          by (rewrite length_app; reflexivity).
        replace (pre ++ [current]) with ((pre ++ [current]) ++ [])
          at 1 by apply app_nil_r.
        rewrite IH by (auto; simpl; lia).
        simpl. now rewrite app_nil_r.
      * destruct (App.added next) eqn:Ea; simpl andb; cbv iota.
        -- replace (List.length pre + 2)
             with (List.length (pre ++ [current; next]))
             by (rewrite length_app; reflexivity).
           replace (pre ++ current :: next :: rest')
             with ((pre ++ [current; next]) ++ rest')
             by (now rewrite <- app_assoc).
           inversion Hrest; subst.
           rewrite IH by (auto; simpl in *; lia).
           now rewrite <- app_assoc.
        -- replace (List.length pre + 1)
             with (List.length (pre ++ [current]))
             by (rewrite length_app; reflexivity).
           replace (pre ++ current :: next :: rest')
             with ((pre ++ [current]) ++ next :: rest')
             by (now rewrite <- app_assoc).
           rewrite IH by (auto; simpl in *; lia).
           now rewrite <- app_assoc.
    + simpl andb. cbv iota.
      unfold changed in Hc. rewrite Er, orb_false_r in Hc. rewrite Hc.
      replace (List.length pre + 1)
        with (List.length (pre ++ [current]))
        by (rewrite length_app; reflexivity).
      replace (pre ++ current :: rest)
        with ((pre ++ [current]) ++ rest)
        by (now rewrite <- app_assoc).
      rewrite IH by (auto; lia).
      now rewrite <- app_assoc.
Qed.

(** The parts [handleCompare] stores are all changed parts. *)
Lemma handleCompare_stores_changed
    (diffLines : jsstring -> jsstring -> list App.DiffPart)
    (st : App.State) (r : App.Result) (l : list App.DiffPart) :
  In r (App.comparisonResult (App.handleCompare diffLines st)) ->
  App.changes r = Some l ->
  Forall (fun part => changed part = true) l.
Proof.
  unfold App.handleCompare. simpl. rewrite in_flat_map.
  intros [t [_ Hr]] Hl. unfold App.compareSection in Hr.
  destruct (negb _); [destruct Hr|].
  destruct (App.onlyNumeric _).
  - destruct (0 <? _); [|destruct Hr].
    destruct Hr as [<-|[]]. discriminate.
  - destruct (0 <? _); [|destruct Hr].
    destruct Hr as [<-|[]]. injection Hl as <-. apply filter_Forall.
Qed.

(** ** Export: the claims *)

(** The loop at index [i = |pre|] over [pre ++ suf], with enough fuel,
    appends the rows of [suf], whatever its parts. *)
Lemma exportLoop_any_suffix (t : jsstring) (numeric : bool) (fuel : nat) :
  forall pre suf acc,
    List.length suf <= fuel ->
    App.exportLoop fuel t numeric (pre ++ suf) (List.length pre) acc =
    acc ++ rowsByPairing t numeric suf.
Proof.
  induction fuel as [|fuel IH]; intros pre suf acc Hlen.
  - destruct suf; [|simpl in Hlen; lia]. simpl. now rewrite app_nil_r.
  - cbn [App.exportLoop]. rewrite nth_error_middle.
    destruct suf as [|current rest]; simpl hd_error;
      [simpl; now rewrite app_nil_r|].
    rewrite next_part.
    simpl in Hlen. unfold App.exportStep. fold (textRow t numeric).
    cbn [rowsByPairing].
    assert (Hone : forall row,
      App.exportLoop fuel t numeric (pre ++ current :: rest)
        (List.length pre + 1) (acc ++ [row]) =
      acc ++ row :: rowsByPairing t numeric rest).
    { intros row.
      replace (List.length pre + 1)
        with (List.length (pre ++ [current]))
        by (rewrite length_app; reflexivity).
      replace (pre ++ current :: rest)
        with ((pre ++ [current]) ++ rest)
        by (now rewrite <- app_assoc).
      rewrite IH by lia. now rewrite <- app_assoc. }
    destruct (App.removed current) eqn:Er.
    + destruct rest as [|next rest']; simpl hd_error.
      * simpl andb. cbv iota. apply Hone.
      * destruct (App.added next) eqn:Ea; simpl andb; cbv iota;
          [|apply Hone].
        replace (List.length pre + 2)
          with (List.length (pre ++ [current; next]))
          by (rewrite length_app; reflexivity).
        replace (pre ++ current :: next :: rest')
          with ((pre ++ [current; next]) ++ rest')
          by (now rewrite <- app_assoc).
        rewrite IH by (simpl in *; lia).
        now rewrite <- app_assoc.
    + simpl andb. cbv iota.
      destruct (App.added current); apply Hone.
Qed.

(** C8, as amended. Over any stream of parts the rows are those of the
    pairing: a removed part directly followed by an added one gives one
    row with both trimmed values, a removed part otherwise an old-only
    row, an added part a new-only row; an unchanged part is not skipped,
    it gives a row with both values empty. [removed "A", added "B",
    removed "C"] gives the two rows [{old: "A", new: "B"}] and
    [{old: "C", new: ""}]; and once the filter of [handleCompare] has
    taken the unchanged part out of [removed "A", unchanged "X",
    added "B"], "A" is paired with "B". *)
Theorem C8_rows_of_any_stream :
  (forall t numeric parts,
      App.textRows t numeric parts = rowsByPairing t numeric parts) /\
  (forall t numeric,
      App.textRows t numeric
        [removedPart (str "A"); addedPart (str "B"); removedPart (str "C")]
      = [textRow t numeric (str "A") (str "B");
         textRow t numeric (str "C") []]) /\
  (forall t numeric,
      App.textRows t numeric
        (filter changed
           [removedPart (str "A"); unchangedPart (str "X");
            addedPart (str "B")])
      = [textRow t numeric (str "A") (str "B")]).
Proof.
  split; [|split].
  - intros t numeric parts. unfold App.textRows.
    apply (exportLoop_any_suffix t numeric (fuel := List.length parts)
             [] parts []).
    lia.
  - reflexivity.
  - reflexivity.
Qed.

(** C8 as stated fails: an unchanged part in the stream is not skipped, it
    gives a row with both values empty. *)
Lemma C8_unchanged_part_not_skipped :
  App.textRows (str "S") false [unchangedPart (str "X")] =
    [textRow (str "S") false [] []] /\
  App.textRows (str "S") false [unchangedPart (str "X")] <> [].
Proof. split; [reflexivity | discriminate]. Qed.

(** C10. When no export row is built, [handleExport] returns normally,
    makes no call into the spreadsheet library, and sets the error message
    to ["No differences to export."]; every other state cell is left as it
    was. *)
Theorem C10_empty_export_reported
    (xlsxWrite : list App.ExportRow -> Res unit) (st : App.State)
    (Hempty : App.buildExportData st = []) :
  let run := App.handleExport xlsxWrite st in
  let st' := App.state run in
  App.outcome run = Ok tt /\
  App.calls run = [] /\
  App.error st' = str "No differences to export." /\
  App.page st' = App.page st /\
  App.oldPdfSections st' = App.oldPdfSections st /\
  App.newPdfSections st' = App.newPdfSections st /\
  App.newPdfName st' = App.newPdfName st /\
  App.oldPdfName st' = App.oldPdfName st /\
  App.combinedSections st' = App.combinedSections st /\
  App.selectedSections st' = App.selectedSections st /\
  App.onlyNumeric st' = App.onlyNumeric st /\
  App.comparisonResult st' = App.comparisonResult st /\
  App.isLoading st' = App.isLoading st /\
  App.fallbackMessage st' = App.fallbackMessage st.
Proof.
  intros run st'. subst st' run. unfold App.handleExport.
  rewrite Hempty. simpl. repeat split.
Qed.

(** ** The claims on concrete inputs *)

(** In numeric mode the section ["Rates"], whose numbers differ (10
    against 12), is not reported. *)
Lemma C2_numeric_mode_witness :
  App.onlyNumeric (freshState true) = true /\
  App.comparisonResult
    (App.handleCompare (fun _ _ => []) (freshState true)) = [].
Proof.
  split; [reflexivity|].
  apply (C2_numeric_mode_reports_nothing (fun _ _ => []) (freshState true)).
  reflexivity.
Defined.

Lemma C5_page_texts_witness :
  nth_error [pageSection 1; pageSection 3] 0 = Some (pageSection 1) /\
  nth_error
    (map fst (extractSections threePages [pageSection 1; pageSection 3])) 0
  = Some {| Extracted.title := str "Page 1"; Extracted.text := str "p1p2" |}.
Proof.
  split; [reflexivity|].
  apply (C5_page_texts_concatenated threePages
           [pageSection 1; pageSection 3] 0 (s := pageSection 1)).
  reflexivity.
Defined.


Lemma C10_empty_export_witness :
  App.buildExportData (freshState false) = [] /\
  App.calls (App.handleExport (fun _ => Throw) (freshState false)) = [] /\
  App.outcome (App.handleExport (fun _ => Throw) (freshState false)) = Ok tt.
Proof.
  assert (H : App.buildExportData (freshState false) = []) by reflexivity.
  split; [exact H|].
  split;
    apply (C10_empty_export_reported (fun _ => Throw) (freshState false) H).
Defined.

(** ** Worked examples *)

Example extractNumerics_example :
  extractNumerics (str "rate = 1,234.50 and -7, x9. 1,2345") = str "1234.50
-7
9
1234
5".
Proof. vm_compute. reflexivity. Qed.

Example split_trailing_separator :
  split c_eq (str "a=") = [str "a"; []].
Proof. reflexivity. Qed.

Example trim_example : trim (str "  a b
 ") = str "a b".
Proof. reflexivity. Qed.

Example ofNat_example : ofNat 120 = str "120".
Proof. reflexivity. Qed.

(** A repeated key keeps its first position and takes its last value. *)
Example buildMap_last_wins :
  buildMap (nonBlankLines (str "a = 1
b = 2

a = 3
= 4
c =")) = [(str "a", str "3"); (str "b", str "2")].
Proof. vm_compute. reflexivity. Qed.

(** Duplicated titles: the first occurrence is kept, with its level. *)
Example dedupe_example :
  map (fun s => (Pdf.title s, level s))
      (dedupe (processOutline noDestination
                 [Item (str "Coverage") DNull
                    [Item (str "Rates") DNull [];
                     Item (str " Coverage ") DNull []];
                  Item (str "  ") DNull []] 0 []))
  = [(str "Coverage", Some 0); (str "Rates", Some 1)].
Proof. vm_compute. reflexivity. Qed.

(** Equal start pages keep their discovery order. *)
Example sortByPage_stable :
  map Pdf.title
      (sortByPage [ {| Pdf.title := str "b"; startPage := 2; level := None;
                       hasValidPage := true |};
                    {| Pdf.title := str "a"; startPage := 1; level := None;
                       hasValidPage := true |};
                    {| Pdf.title := str "c"; startPage := 2; level := None;
                       hasValidPage := true |} ])
  = [str "a"; str "b"; str "c"].
Proof. reflexivity. Qed.

(* ================================================================= *)
(** * Further properties *)

(** ** Outline traversal: titles, levels and pages *)

Lemma trim_nil : trim [] = [].
Proof. reflexivity. Qed.

Lemma push_guard (t : jsstring) : truthy t && truthy (trim t) = nonBlank t.
Proof.
  unfold nonBlank. destruct t as [|c t]; [reflexivity|]. reflexivity.
Qed.

Lemma visitItem_push (pdf : Document) (lvl : nat) (t : jsstring) (d : Dest)
    (sections : list Sect) :
  exists p, 1 <= p /\
    visitItem pdf lvl t d sections =
    sections ++ (if nonBlank t
                 then [{| Pdf.title := trim t; startPage := p;
                          level := Some lvl; hasValidPage := true |}]
                 else []).
Proof.
  unfold visitItem, tryItem. rewrite push_guard.
  destruct (nonBlank t) eqn:E.
  - assert (Ht : truthy t = true).
    { destruct t; [discriminate | reflexivity]. }
    rewrite Ht.
    destruct (resolvePage pdf d) as [[|p]|] eqn:Er.
    + exists (List.length sections + 1). split; [lia|].
      unfold resolvePage in Er.
      destruct (destTruthy d); [|discriminate].
      destruct (tryDestination pdf d) as [[q|]|] eqn:Et.
      * injection Er as ->. unfold tryDestination in Et.
        destruct (getDestination pdf d) as [[[|t0 l]|]|]; try discriminate.
        destruct (targetTruthy t0); [|discriminate].
        destruct (getPageIndex pdf (Some t0)); [|discriminate].
        injection Et. lia.
      * discriminate.
      * destruct d as [|nm|a]; try discriminate.
        destruct (getPageIndex pdf (hd_error a)); [|discriminate].
        injection Er. lia.
    + exists (S p). split; [lia | reflexivity].
    + exists (orLength (Some (List.length sections + 1)) sections).
      split; [|reflexivity].
      unfold orLength.
      destruct (List.length sections + 1) eqn:El; lia.
  - exists 1. split; [lia|]. now rewrite app_nil_r.
Qed.

Lemma processItem_fold (pdf : Document) (lvl : nat) (t : jsstring)
    (d : Dest) (its : list OutlineItem) (sections : list Sect) :
  processItem pdf lvl (Item t d its) sections =
  fold_left (fun acc it => processItem pdf (lvl + 1) it acc) its
            (visitItem pdf lvl t d sections).
Proof. destruct its; reflexivity. Qed.

Lemma processItem_entries (pdf : Document) (item : OutlineItem) :
  forall lvl sections,
    map titleLevel (processItem pdf lvl item sections) =
    map titleLevel sections ++ titledEntries lvl item.
Proof.
  induction item as [t d its IH] using OutlineItem_induction.
  intros lvl sections. rewrite processItem_fold. cbn [titledEntries].
  destruct (visitItem_push pdf lvl t d sections) as [p [_ ->]].
  assert (E : map titleLevel
                (sections ++ (if nonBlank t
                   then [{| Pdf.title := trim t; startPage := p;
                            level := Some lvl; hasValidPage := true |}]
                   else [])) =
              map titleLevel sections ++
              (if nonBlank t then [(trim t, Some lvl)] else [])).
  { rewrite map_app. destruct (nonBlank t); reflexivity. }
  rewrite app_assoc, <- E.
  generalize (sections ++ (if nonBlank t
                   then [{| Pdf.title := trim t; startPage := p;
                            level := Some lvl; hasValidPage := true |}]
                   else [])) as acc.
  induction IH as [|x l Hx _ IHl]; intros acc; simpl.
  - now rewrite app_nil_r.
  - rewrite IHl, Hx, <- app_assoc. reflexivity.
Qed.

Lemma processOutline_entries (pdf : Document) (items : list OutlineItem)
    (lvl : nat) (sections : list Sect) :
  map titleLevel (processOutline pdf items lvl sections) =
  map titleLevel sections ++ flat_map (titledEntries lvl) items.
Proof.
  unfold processOutline. revert sections.
  induction items as [|it l IH]; intros sections; simpl.
  - now rewrite app_nil_r.
  - rewrite IH, processItem_entries, <- app_assoc. reflexivity.
Qed.

Local Abbreviation fromPage1 := (Forall (fun s => 1 <= startPage s)).

Lemma processItem_fromPage1 (pdf : Document) (item : OutlineItem) :
  forall lvl sections,
    fromPage1 sections -> fromPage1 (processItem pdf lvl item sections).
Proof.
  induction item as [t d its IH] using OutlineItem_induction.
  intros lvl sections H. rewrite processItem_fold.
  assert (H1 : fromPage1 (visitItem pdf lvl t d sections)).
  { destruct (visitItem_push pdf lvl t d sections) as [p [Hp ->]].
    apply Forall_app. split; [exact H|].
    destruct (nonBlank t); repeat constructor. exact Hp. }
  revert H1. generalize (visitItem pdf lvl t d sections) as acc.
  induction IH as [|x l Hx _ IHl]; intros acc Hacc; simpl; [exact Hacc|].
  apply IHl, Hx, Hacc.
Qed.

Lemma processOutline_fromPage1 (pdf : Document) (items : list OutlineItem)
    (lvl : nat) (sections : list Sect) :
  fromPage1 sections -> fromPage1 (processOutline pdf items lvl sections).
Proof.
  unfold processOutline. revert sections.
  induction items as [|it l IH]; intros sections H; simpl; [exact H|].
  apply IH, processItem_fromPage1, H.
Qed.

(** X1. The titles and levels of the sections pushed by the traversal are
    those of the entries with a non-blank title, trimmed, in depth-first
    order with their nesting depth; they do not depend on how the
    destinations resolve. *)
Theorem X1_traversal_titles_depth_first (pdf : Document)
    (outlineItems : list OutlineItem) :
  map titleLevel (processOutline pdf outlineItems 0 []) =
  flat_map (titledEntries 0) outlineItems.
Proof. apply (processOutline_entries pdf outlineItems 0 []). Qed.

(** ** Deduplication by title *)

Lemma findIndex_bound (A : Type) (p : A -> bool) (l : list A) (i : nat) :
  findIndex p l = Some i -> i < List.length l.
Proof.
  revert i; induction l as [|x l IH]; intros i; simpl; [discriminate|].
  destruct (p x); [intros [= <-]; lia|].
  destruct (findIndex p l) as [j|]; [|discriminate].
  intros [= <-]. specialize (IH j eq_refl). lia.
Qed.

Lemma findIndex_none (A : Type) (p : A -> bool) (l : list A) :
  findIndex p l = None <-> existsb p l = false.
Proof.
  induction l as [|x l IH]; simpl; [tauto|].
  destruct (p x); simpl; [split; discriminate|].
  rewrite <- IH. destruct (findIndex p l); split; congruence.
Qed.

(** The first match is at the end of [pre] exactly when [pre] has none. *)
Lemma isIndex_first (A : Type) (p : A -> bool) (pre : list A) (x : A)
    (l : list A) :
  p x = true ->
  isIndex (findIndex p (pre ++ x :: l)) (List.length pre) =
  negb (existsb p pre).
Proof.
  intros Hx. induction pre as [|y pre IH]; simpl.
  - now rewrite Hx.
  - destruct (p y); simpl; [reflexivity|].
    destruct (findIndex p (pre ++ x :: l)) as [j|]; simpl in *; exact IH.
Qed.

Lemma dedupe_from (pre l : list Sect) :
  map snd
    (filter (fun '(index, section) =>
               isIndex (findIndex
                          (fun s => streq (Pdf.title s) (Pdf.title section))
                          (pre ++ l)) index)
            (combine (seq (List.length pre) (List.length l)) l))
  = firstOccurrences pre l.
Proof.
  revert pre; induction l as [|x l IH]; intros pre; [reflexivity|].
  cbn [List.length seq combine filter firstOccurrences].
  rewrite isIndex_first by apply streq_refl.
  specialize (IH (pre ++ [x])).
  rewrite <- app_assoc, length_app, Nat.add_1_r in IH. cbn [app] in IH.
  destruct (existsb _ pre); cbn [negb map snd app]; now rewrite IH.
Qed.

(** [dedupe] keeps exactly the sections whose title did not occur before. *)
Lemma dedupe_firstOccurrences (l : list Sect) :
  dedupe l = firstOccurrences [] l.
Proof. exact (dedupe_from [] l). Qed.

Lemma titled_existsb (t : jsstring) (l : list Sect) :
  existsb (fun s => streq (Pdf.title s) t) l = true <->
  In t (map Pdf.title l).
Proof.
  rewrite existsb_exists, in_map_iff. split.
  - intros [s [Hs E]]. apply streq_eq in E. eauto.
  - intros [s [E Hs]]. exists s. split; [exact Hs|]. now apply streq_eq.
Qed.

Lemma firstOccurrences_titles (seen l : list Sect) (t : jsstring) :
  In t (map Pdf.title (firstOccurrences seen l)) <->
  In t (map Pdf.title l) /\ ~ In t (map Pdf.title seen).
Proof.
  revert seen; induction l as [|x l IH]; intros seen;
    cbn [firstOccurrences map]; [simpl; tauto|].
  rewrite map_app, in_app_iff, IH, map_app, in_app_iff. simpl.
  destruct (existsb _ seen) eqn:E.
  - apply titled_existsb in E. simpl.
    split; [intuition|]. intros [[<-|H] Hn]; [tauto|].
    right. split; [exact H|]. intros [?|[<-|[]]]; tauto.
  - assert (Hx : ~ In (Pdf.title x) (map Pdf.title seen)).
    { intros H. apply titled_existsb in H. congruence. }
    simpl. split.
    + intros [[<-|[]]|[H Hn]]; [tauto|]. split; [tauto|].
      intros ?. apply Hn. now left.
    + intros [[<-|H] Hn]; [now left; left|].
      destruct (streq_spec (Pdf.title x) t) as [<-|Hne];
        [now left; left|].
      right. split; [exact H|]. intros [?|[?|[]]]; tauto.
Qed.

Lemma firstOccurrences_NoDup (seen l : list Sect) :
  NoDup (map Pdf.title (firstOccurrences seen l)).
Proof.
  revert seen; induction l as [|x l IH]; intros seen;
    cbn [firstOccurrences]; [constructor|].
  destruct (existsb _ seen) eqn:E; cbn [app]; [apply IH|].
  cbn [map]. constructor; [|apply IH].
  rewrite firstOccurrences_titles, map_app, in_app_iff. simpl. tauto.
Qed.

Lemma find_append (A : Type) (p : A -> bool) (a b : list A) :
  find p (a ++ b) =
  match find p a with Some x => Some x | None => find p b end.
Proof.
  induction a as [|x a IH]; simpl; [reflexivity|].
  destruct (p x); [reflexivity | exact IH].
Qed.

Lemma firstOccurrences_first (seen l : list Sect) (t : jsstring) :
  firstTitled t (firstOccurrences seen l) =
  if existsb (fun s => streq (Pdf.title s) t) seen then None
  else firstTitled t l.
Proof.
  unfold firstTitled.
  revert seen; induction l as [|x l IH]; intros seen;
    cbn [firstOccurrences].
  - simpl. now destruct (existsb _ seen).
  - rewrite find_append, IH, existsb_app. cbn [existsb find].
    rewrite orb_false_r.
    destruct (streq_spec (Pdf.title x) t) as [<-|Hne].
    + rewrite orb_true_r.
      destruct (existsb _ seen); cbn [find]; [reflexivity|].
      now rewrite streq_refl.
    + rewrite orb_false_r.
      destruct (existsb (fun s => streq (Pdf.title s) (Pdf.title x)) seen);
        cbn [find]; [reflexivity|].
      apply streq_neq in Hne. rewrite Hne. reflexivity.
Qed.

(** A list whose titles are distinct and unseen is kept whole. *)
Lemma firstOccurrences_id (seen l : list Sect) :
  NoDup (map Pdf.title l) ->
  (forall t, In t (map Pdf.title l) -> ~ In t (map Pdf.title seen)) ->
  firstOccurrences seen l = l.
Proof.
  revert seen; induction l as [|x l IH]; intros seen Hnd Hdis;
    cbn [firstOccurrences]; [reflexivity|].
  cbn [map] in Hnd. inversion Hnd as [|? ? Hx Hnd']; subst.
  destruct (existsb _ seen) eqn:E.
  - apply titled_existsb in E. exfalso. apply (Hdis (Pdf.title x)); simpl; auto.
  - cbn [app]. f_equal. apply IH; [exact Hnd'|].
    intros t Ht. rewrite map_app, in_app_iff. simpl.
    intros [H|[<-|[]]]; [|tauto].
    apply (Hdis t); simpl; auto.
Qed.

(** X2. After deduplication no two sections share a title, and the titles
    are those of the input. *)
Theorem X2_dedupe_titles_unique (self : list Sect) :
  NoDup (map Pdf.title (dedupe self)) /\
  (forall t, In t (map Pdf.title (dedupe self)) <->
             In t (map Pdf.title self)).
Proof.
  rewrite dedupe_firstOccurrences. split.
  - apply firstOccurrences_NoDup.
  - intros t. rewrite firstOccurrences_titles. simpl. tauto.
Qed.

(** X3. Deduplication keeps, for every title, the first section that
    carries it (with its page, level and flag), and it keeps exactly the
    sections whose title no earlier section carries. *)
Theorem X3_dedupe_first_occurrence_wins (self : list Sect) :
  (forall t, firstTitled t (dedupe self) = firstTitled t self) /\
  dedupe self = firstOccurrences [] self.
Proof.
  split; [|apply dedupe_firstOccurrences].
  intros t. rewrite dedupe_firstOccurrences, firstOccurrences_first.
  reflexivity.
Qed.

(** X4. Deduplicating twice changes nothing. *)
Theorem X4_dedupe_idempotent (self : list Sect) :
  dedupe (dedupe self) = dedupe self.
Proof.
  rewrite (dedupe_firstOccurrences (dedupe self)).
  apply firstOccurrences_id.
  - rewrite dedupe_firstOccurrences. apply firstOccurrences_NoDup.
  - intros t _ H. destruct H.
Qed.

(** ** The final sections of a document *)

Lemma firstOccurrences_In (seen l : list Sect) (s : Sect) :
  In s (firstOccurrences seen l) -> In s l.
Proof.
  revert seen; induction l as [|x l IH]; intros seen;
    cbn [firstOccurrences]; [tauto|].
  rewrite in_app_iff. intros [H|H].
  - destruct (existsb _ seen); [destruct H|].
    destruct H as [<-|[]]. now left.
  - right. eapply IH, H.
Qed.

Lemma dedupe_In (l : list Sect) (s : Sect) : In s (dedupe l) -> In s l.
Proof. rewrite dedupe_firstOccurrences. apply firstOccurrences_In. Qed.

Lemma dedupe_nonempty (l : list Sect) : l <> [] -> dedupe l <> [].
Proof.
  rewrite dedupe_firstOccurrences. destruct l as [|x l]; [congruence|].
  discriminate.
Qed.

Lemma sortByPage_Permutation (l : list Sect) : Permutation (sortByPage l) l.
Proof.
  induction l as [|x l IH]; simpl; [constructor|].
  transitivity (x :: sortByPage l); [|now constructor].
  generalize (sortByPage l) as m. clear.
  induction m as [|y m IH]; simpl; [reflexivity|].
  destruct (startPage x <=? startPage y); [reflexivity|].
  rewrite IH. apply perm_swap.
Qed.

Lemma sortByPage_nonempty (l : list Sect) : l <> [] -> sortByPage l <> [].
Proof.
  intros H E. apply H.
  apply Permutation_nil. rewrite <- E. apply sortByPage_Permutation.
Qed.

(** With every section flagged valid, the estimation step is the sort. *)
Lemma estimatePages_all_valid (P : nat) (l : list Sect) :
  Forall (fun s => hasValidPage s = true) l ->
  estimatePages P l = sortByPage l.
Proof.
  intros H. unfold estimatePages.
  assert (Ev : filter hasValidPage l = l).
  { apply forallb_filter_id, forallb_forall.
    rewrite Forall_forall in H. exact H. }
  assert (Ei : filter (fun s => negb (hasValidPage s)) l = []).
  { apply filter_none. eapply Forall_impl; [|exact H].
    intros s Hs. simpl in Hs. now rewrite Hs. }
  rewrite Ev, Ei.
  destruct l as [|x l]; [reflexivity|].
  cbn [List.length Nat.ltb Nat.leb assignPages]. rewrite app_nil_r.
  apply sortByPage_id, sortByPage_sorted.
Qed.

Lemma traversal_valid (pdf : Document) :
  Forall (fun s => hasValidPage s = true) (traversal pdf).
Proof.
  unfold traversal. destruct (getOutline pdf); [|constructor].
  apply processOutline_valid. constructor.
Qed.

Lemma tocSections_traversal (pdf : Document) :
  tocSections pdf = sortByPage (dedupe (traversal pdf)).
Proof.
  unfold tocSections, traversal.
  destruct (getOutline pdf) as [[|it outline]|]; try reflexivity.
  pose proof (processOutline_valid pdf (it :: outline) 0
                (Forall_nil _)) as Hv.
  destruct (processOutline pdf (it :: outline) 0 []) as [|s l] eqn:E;
    [reflexivity|].
  cbn [List.length Nat.ltb Nat.leb].
  apply estimatePages_all_valid.
  rewrite Forall_forall in *. intros x Hx. apply Hv, dedupe_In, Hx.
Qed.

Lemma tocSections_empty (pdf : Document) :
  tocSections pdf = [] <-> traversal pdf = [].
Proof.
  rewrite tocSections_traversal. split.
  - intros E. destruct (traversal pdf) as [|s l] eqn:Et; [reflexivity|].
    exfalso. apply (@sortByPage_nonempty (dedupe (s :: l))); [|exact E].
    apply dedupe_nonempty. discriminate.
  - intros ->. reflexivity.
Qed.

Lemma traversal_entries (pdf : Document) :
  map titleLevel (traversal pdf) = outlineEntries pdf.
Proof.
  unfold traversal, outlineEntries.
  destruct (getOutline pdf); [|reflexivity].
  apply (processOutline_entries pdf l 0 []).
Qed.

Lemma finalSections_traversal (pdf : Document) :
  finalSections pdf =
  match traversal pdf with
  | [] => (pageSections (numPages pdf), PAGES)
  | _ :: _ =>
      (clampPages (numPages pdf) (sortByPage (dedupe (traversal pdf))), TOC)
  end.
Proof.
  unfold finalSections.
  pose proof (tocSections_empty pdf) as He.
  rewrite tocSections_traversal in *.
  destruct (traversal pdf) as [|s l] eqn:Et; [reflexivity|].
  destruct (sortByPage (dedupe (s :: l))) as [|y m] eqn:Es; [|reflexivity].
  destruct He as [He _]. discriminate (He eq_refl).
Qed.

(** X5. The final sections are the traversal sections deduplicated by
    title, stably sorted by start page and clamped to the page count, in
    mode [TOC]; when the traversal pushed nothing they are the page
    sections, in mode [PAGES]. The spreading of estimated pages never
    takes part. *)
Theorem X5_final_sections_sorted_dedup (pdf : Document) :
  finalSections pdf =
  match traversal pdf with
  | [] => (pageSections (numPages pdf), PAGES)
  | _ :: _ =>
      (clampPages (numPages pdf) (sortByPage (dedupe (traversal pdf))), TOC)
  end.
Proof. apply finalSections_traversal. Qed.

Lemma mode_of_outlineEntries (pdf : Document) :
  snd (finalSections pdf) =
  match outlineEntries pdf with [] => PAGES | _ => TOC end.
Proof.
  unfold finalSections. rewrite <- traversal_entries.
  pose proof (tocSections_empty pdf) as He.
  destruct (tocSections pdf) as [|s l].
  - destruct He as [He _]. now rewrite (He eq_refl).
  - destruct (traversal pdf) as [|x m]; [|reflexivity].
    destruct He as [_ He]. discriminate (He eq_refl).
Qed.

(** X6. The mode is [PAGES] exactly when no outline entry, at any depth,
    has a non-blank title (in particular without outline), and [TOC]
    otherwise. *)
Theorem X6_mode_pages_iff_no_titled_entry (pdf : Document) :
  (snd (finalSections pdf) = PAGES <-> outlineEntries pdf = []) /\
  (snd (finalSections pdf) = TOC <-> outlineEntries pdf <> []).
Proof.
  rewrite mode_of_outlineEntries.
  destruct (outlineEntries pdf); split; split; congruence.
Qed.

Lemma clampPages_titles (P : nat) (l : list Sect) :
  map Pdf.title (clampPages P l) = map Pdf.title l.
Proof. unfold clampPages. rewrite map_map. reflexivity. Qed.

Lemma digits_inj (d d' : Decimal.uint) : digits d = digits d' -> d = d'.
Proof.
  revert d'; induction d; intros d'; destruct d'; simpl;
    try discriminate; try reflexivity; intros [= H]; f_equal; auto.
Qed.

Lemma ofNat_inj (n m : nat) : ofNat n = ofNat m -> n = m.
Proof.
  unfold ofNat. intros H. apply Unsigned.to_uint_inj, digits_inj, H.
Qed.

Lemma pageSections_titles_NoDup (P : nat) :
  NoDup (map Pdf.title (pageSections P)).
Proof.
  unfold pageSections. rewrite map_map. cbn [Pdf.title].
  assert (H : forall l, NoDup l ->
                NoDup (map (fun n => str "Page " ++ ofNat n) l)).
  { induction 1 as [|x l Hx Hl IH]; simpl; constructor; [|exact IH].
    rewrite in_map_iff. intros [y [E Hy]].
    injection E as E. apply ofNat_inj in E. now subst. }
  apply H, seq_NoDup.
Qed.

Lemma tocSections_titles_Permutation (pdf : Document) :
  Permutation (map Pdf.title (tocSections pdf))
              (map Pdf.title (dedupe (traversal pdf))).
Proof.
  rewrite tocSections_traversal.
  apply Permutation_map, sortByPage_Permutation.
Qed.

(** X7. In a document with at least one page there is at least one final
    section, every final start page lies in [1..P], and the start pages
    are in non-decreasing order. *)
Theorem X7_final_pages_within_document (pdf : Document)
    (HP : 1 <= numPages pdf) :
  let sections := fst (finalSections pdf) in
  sections <> [] /\
  Forall (fun s => 1 <= startPage s <= numPages pdf) sections /\
  StronglySorted pageLe sections.
Proof.
  intros sections.
  destruct (finalSections_shape pdf) as [Hs [Hb H0]]. fold sections in Hs, Hb, H0.
  split; [intros E; specialize (H0 E); lia|].
  split; [|exact Hs].
  assert (H1 : Forall (fun s => 1 <= startPage s) sections).
  { subst sections. rewrite finalSections_traversal.
    destruct (traversal pdf) as [|x l] eqn:Et; cbn [fst].
    - unfold pageSections. rewrite Forall_map, Forall_forall.
      intros n Hn. apply in_seq in Hn. simpl. lia.
    - unfold clampPages. rewrite Forall_map, Forall_forall.
      intros s Hs'. simpl.
      assert (Hin : In s (traversal pdf)).
      { rewrite Et. apply dedupe_In, sortByPage_In, Hs'. }
      assert (Hf : Forall (fun s => 1 <= startPage s) (traversal pdf)).
      { unfold traversal. destruct (getOutline pdf); [|constructor].
        apply processOutline_fromPage1. constructor. }
      rewrite Forall_forall in Hf. specialize (Hf s Hin). lia. }
  rewrite Forall_forall in *. intros s Hin.
  specialize (H1 s Hin). specialize (Hb s Hin). lia.
Qed.

(** X8. No two final sections of a document share a title, in either
    mode; and the titles of the sections taken from the outline are the
    trimmed non-blank titles of its entries. *)
Theorem X8_final_titles_unique (pdf : Document) :
  NoDup (map Pdf.title (fst (finalSections pdf))) /\
  (forall t, In t (map Pdf.title (tocSections pdf)) <->
             In t (map fst (outlineEntries pdf))).
Proof.
  split.
  - unfold finalSections.
    pose proof (tocSections_titles_Permutation pdf) as Hp.
    destruct (tocSections pdf) as [|s l] eqn:Et; cbn [fst].
    + apply pageSections_titles_NoDup.
    + rewrite clampPages_titles.
      apply (Permutation_NoDup (Permutation_sym Hp)).
      rewrite dedupe_firstOccurrences. apply firstOccurrences_NoDup.
  - intros t.
    rewrite (Permutation_in' (eq_refl t) (tocSections_titles_Permutation pdf)).
    rewrite dedupe_firstOccurrences, firstOccurrences_titles.
    rewrite <- traversal_entries, map_map. simpl. tauto.
Qed.

Lemma extractSections_titles (pdf : Document) (l : list Sect) :
  map Extracted.title (map fst (extractSections pdf l)) = map Pdf.title l.
Proof.
  induction l as [|x l IH]; [reflexivity|].
  rewrite extractSections_cons. simpl. now rewrite IH.
Qed.

(** X9. [parsePdf] returns one extracted section per final section, in the
    same order and under the same title, and the mode of the final
    sections. *)
Theorem X9_extracted_sections_follow_sections (pdf : Document) :
  map Extracted.title (fst (parsePdf pdf)) =
    map Pdf.title (fst (finalSections pdf)) /\
  List.length (fst (parsePdf pdf)) = List.length (fst (finalSections pdf)) /\
  snd (parsePdf pdf) = snd (finalSections pdf).
Proof.
  unfold parsePdf. destruct (finalSections pdf) as [sections mode].
  cbn [fst snd]. split; [apply extractSections_titles|].
  split; [|reflexivity].
  rewrite <- (length_map Extracted.title), extractSections_titles.
  apply length_map.
Qed.

(** ** The numbers [extractNumerics] finds *)

Lemma takeWhile_allDigits (s : jsstring) : allDigits (takeWhile isDigit s).
Proof.
  induction s as [|c s IH]; simpl; [constructor|].
  destruct (isDigit c) eqn:E; constructor; auto.
Qed.

Lemma digit_not_comma (c : char) :
  isDigit c = true -> negb (c =? c_comma)%N = true.
Proof.
  unfold isDigit, c_comma. rewrite andb_true_iff, !N.leb_le.
  intros H. destruct (N.eqb_spec c 44); [lia | reflexivity].
Qed.

Lemma stripCommas_digits (s : jsstring) : allDigits s -> stripCommas s = s.
Proof.
  induction 1 as [|c s Hc _ IH]; simpl; [reflexivity|].
  rewrite (digit_not_comma _ Hc). simpl. now rewrite IH.
Qed.

Lemma stripCommas_app (a b : jsstring) :
  stripCommas (a ++ b) = stripCommas a ++ stripCommas b.
Proof. apply filter_app. Qed.

(** Without their commas, the thousands groups are digits. *)
Lemma thousands_stripped (s : jsstring) :
  allDigits (stripCommas (fst (thousands s))).
Proof.
  remember (List.length s) as n eqn:Hn.
  revert s Hn; induction n as [n IH] using lt_wf_ind; intros s ->.
  destruct s as [|c [|d1 [|d2 [|d3 rest]]]]; try (simpl; constructor).
  cbn [thousands].
  destruct ((c =? c_comma)%N && isDigit d1 && isDigit d2 && isDigit d3)
    eqn:E; [|constructor].
  rewrite !andb_true_iff in E. destruct E as [[[Hc H1] H2] H3].
  specialize (IH (List.length rest) ltac:(simpl; lia) rest eq_refl).
  destruct (thousands rest) as [m r]; cbn [fst] in *.
  unfold stripCommas in *. cbn [filter]. rewrite Hc. cbn [negb].
  rewrite !digit_not_comma by assumption.
  repeat constructor; assumption.
Qed.

Lemma fraction_shape (s : jsstring) :
  fst (fraction s) = [] \/
  exists fs, fst (fraction s) = c_dot :: fs /\ fs <> [] /\ allDigits fs.
Proof.
  destruct s as [|c [|d rest]]; try (left; reflexivity).
  unfold fraction.
  destruct ((c =? c_dot)%N && isDigit d) eqn:E; [|left; reflexivity].
  rewrite andb_true_iff in E. destruct E as [Hc Hd].
  apply N.eqb_eq in Hc; subst c. right.
  exists (d :: takeWhile isDigit rest). split; [reflexivity|].
  split; [discriminate|]. constructor; [exact Hd|].
  apply takeWhile_allDigits.
Qed.

Lemma dot_not_comma : negb (c_dot =? c_comma)%N = true.
Proof. reflexivity. Qed.

Lemma matchUnsigned_stripped (s m : jsstring) :
  matchUnsigned s = Some m ->
  exists ds fr,
    stripCommas m = ds ++ fr /\ ds <> [] /\ allDigits ds /\
    (fr = [] \/ exists fs, fr = c_dot :: fs /\ fs <> [] /\ allDigits fs).
Proof.
  unfold matchUnsigned. intros H.
  pose proof (takeWhile_allDigits s) as Hd.
  pose proof (thousands_stripped (dropWhile isDigit s)) as Hg.
  destruct (takeWhile isDigit s) as [|d ds] eqn:Ed; [discriminate|].
  destruct (thousands (dropWhile isDigit s)) as [g r]. cbn [fst] in Hg.
  pose proof (fraction_shape r) as Hf.
  destruct (fraction r) as [f r']. cbn [fst] in Hf. injection H as <-.
  exists ((d :: ds) ++ stripCommas g), f.
  assert (Ef : stripCommas f = f).
  { destruct Hf as [->|[fs [-> [_ Hfs]]]]; [reflexivity|].
    unfold stripCommas. cbn [filter]. rewrite dot_not_comma.
    f_equal. apply (stripCommas_digits Hfs). }
  split.
  - change (d :: ds ++ g ++ f) with ((d :: ds) ++ g ++ f).
    rewrite !stripCommas_app, (stripCommas_digits Hd), Ef.
    now rewrite app_assoc.
  - split; [discriminate|]. split; [|exact Hf].
    apply Forall_app. auto.
Qed.

Lemma matchAt_numeral (s m : jsstring) :
  matchAt s = Some m -> numeral (stripCommas m).
Proof.
  destruct s as [|c s]; cbn [matchAt]; [discriminate|].
  destruct (N.eqb_spec c c_minus) as [->|Hne].
  - destruct (matchUnsigned s) as [m'|] eqn:E.
    + intros [= <-].
      destruct (matchUnsigned_stripped _ E) as [ds [fr [Em H]]].
      exists [c_minus], ds, fr. split; [|split; [now right | exact H]].
      unfold stripCommas in *. cbn [filter]. simpl negb. cbv iota.
      now rewrite Em.
    + intros H. destruct (matchUnsigned_stripped _ H) as [ds [fr [Em H']]].
      exists [], ds, fr. split; [exact Em|]. split; [now left | exact H'].
  - intros H. destruct (matchUnsigned_stripped _ H) as [ds [fr [Em H']]].
    exists [], ds, fr. split; [exact Em|]. split; [now left | exact H'].
Qed.

Lemma matchAllFrom_numerals (s : jsstring) (skip : nat) :
  Forall numeral (map stripCommas (matchAllFrom skip s)).
Proof.
  revert skip; induction s as [|c s IH]; intros skip;
    cbn [matchAllFrom]; [constructor|].
  destruct skip as [|k]; [|apply IH].
  destruct (matchAt (c :: s)) as [m|] eqn:E; [|apply IH].
  cbn [map]. constructor; [eapply matchAt_numeral; eauto | apply IH].
Qed.

Lemma numeral_units (m : jsstring) :
  numeral m -> Forall (fun c => numeralUnit c = true) m.
Proof.
  intros [sign [ds [fr [-> [Hs [_ [Hd Hf]]]]]]].
  assert (Hdig : forall l, allDigits l ->
                   Forall (fun c => numeralUnit c = true) l).
  { intros l Hl. eapply Forall_impl; [|exact Hl].
    intros c Hc. unfold numeralUnit. simpl in Hc. now rewrite Hc. }
  rewrite !Forall_app. split; [|split].
  - destruct Hs as [->| ->]; repeat constructor.
  - apply Hdig, Hd.
  - destruct Hf as [->|[fs [-> [_ Hfs]]]]; [constructor|].
    constructor; [reflexivity | apply Hdig, Hfs].
Qed.

Lemma numeral_nonempty (m : jsstring) : numeral m -> m <> [].
Proof.
  intros [sign [ds [fr [-> [_ [Hd _]]]]]] E.
  apply app_eq_nil in E. destruct E as [_ E].
  apply app_eq_nil in E. tauto.
Qed.

Lemma join_units (P : char -> Prop) (sep : jsstring)
    (parts : list jsstring) :
  Forall P sep -> Forall (Forall P) parts -> Forall P (join sep parts).
Proof.
  intros Hs Hp; induction Hp as [|p rest Hp _ IH]; simpl; [constructor|].
  destruct rest; [exact Hp|]. rewrite !Forall_app. auto.
Qed.

(** X10. The output of [extractNumerics] is a newline-separated list of
    numerals: an optional minus sign, digits, and optionally a dot and
    digits. It holds no thousands separator and no code unit other than
    digits, ['-'], ['.'] and the newline. *)
Theorem X10_extractNumerics_numerals (text : jsstring) :
  (exists ns, extractNumerics text = join [c_nl] ns /\ Forall numeral ns) /\
  Forall (fun c => numeralUnit c = true) (extractNumerics text) /\
  ~ In c_comma (extractNumerics text).
Proof.
  pose proof (matchAllFrom_numerals text 0) as Hn.
  assert (Hu : Forall (fun c => numeralUnit c = true) (extractNumerics text)).
  { unfold extractNumerics, matchAll. apply join_units.
    - repeat constructor.
    - eapply Forall_impl; [|exact Hn]. apply numeral_units. }
  split; [|split].
  - exists (map stripCommas (matchAllFrom 0 text)). split; [reflexivity|].
    exact Hn.
  - exact Hu.
  - intros Hin. rewrite Forall_forall in Hu. specialize (Hu _ Hin).
    discriminate.
Qed.

Lemma matchUnsigned_no_digit (s : jsstring) :
  match s with c :: _ => isDigit c | [] => false end = false ->
  matchUnsigned s = None.
Proof.
  unfold matchUnsigned. destruct s as [|c s]; simpl; [reflexivity|].
  now intros ->.
Qed.

Lemma matchAllFrom_no_digit (s : jsstring) (skip : nat) :
  hasDigit s = false -> matchAllFrom skip s = [].
Proof.
  unfold hasDigit.
  revert skip; induction s as [|c s IH]; intros skip H;
    cbn [matchAllFrom]; [reflexivity|].
  cbn [existsb] in H. apply orb_false_iff in H. destruct H as [Hc Hs].
  destruct skip as [|k]; [|now apply IH].
  assert (E : matchAt (c :: s) = None).
  { cbn [matchAt].
    rewrite (matchUnsigned_no_digit (c :: s)) by exact Hc.
    destruct (c =? c_minus)%N; [|reflexivity].
    rewrite matchUnsigned_no_digit; [reflexivity|].
    destruct s as [|d s]; [reflexivity|].
    cbn [existsb] in Hs. now apply orb_false_iff in Hs. }
  rewrite E. now apply IH.
Qed.

Lemma matchUnsigned_digit (c : char) (s : jsstring) :
  isDigit c = true -> matchUnsigned (c :: s) <> None.
Proof.
  intros Hc. unfold matchUnsigned. cbn [takeWhile]. rewrite Hc.
  destruct (thousands _) as [g r]. destruct (fraction r). discriminate.
Qed.

Lemma matchAllFrom_digit (s : jsstring) :
  hasDigit s = true -> matchAllFrom 0 s <> [].
Proof.
  unfold hasDigit. induction s as [|c s IH]; cbn [existsb matchAllFrom];
    [discriminate|].
  intros H. destruct (matchAt (c :: s)) as [m|] eqn:E; [discriminate|].
  apply IH. destruct (isDigit c) eqn:Hc; [|exact H].
  exfalso. cbn [matchAt] in E.
  pose proof (@matchUnsigned_digit c s Hc) as Hm.
  destruct (c =? c_minus)%N; [|congruence].
  destruct (matchUnsigned s); [discriminate | congruence].
Qed.

Lemma join_nonempty (sep p : jsstring) (rest : list jsstring) :
  p <> [] -> join sep (p :: rest) <> [].
Proof.
  intros Hp. destruct p as [|c p]; [congruence|].
  destruct rest; discriminate.
Qed.

(** X11. [extractNumerics] returns the empty string exactly for the texts
    without a digit. *)
Theorem X11_extractNumerics_empty_iff_no_digit (text : jsstring) :
  extractNumerics text = [] <-> hasDigit text = false.
Proof.
  unfold extractNumerics, matchAll. split.
  - intros E. destruct (hasDigit text) eqn:Hd; [|reflexivity].
    exfalso. pose proof (matchAllFrom_digit text Hd) as Hne.
    pose proof (matchAllFrom_numerals text 0) as Hn.
    destruct (matchAllFrom 0 text) as [|m ms]; [congruence|].
    cbn [map] in *. inversion Hn; subst.
    apply (@join_nonempty [c_nl] (stripCommas m) (map stripCommas ms));
      [apply numeral_nonempty; assumption | exact E].
  - intros H. now rewrite matchAllFrom_no_digit.
Qed.

(** ** Scanning numerals again *)

Lemma takeWhile_prefix (p : char -> bool) (a rest : jsstring) :
  Forall (fun c => p c = true) a ->
  match rest with c :: _ => p c | [] => false end = false ->
  takeWhile p (a ++ rest) = a /\ dropWhile p (a ++ rest) = rest.
Proof.
  intros Ha Hr. induction Ha as [|c a Hc _ IH]; simpl.
  - destruct rest as [|c rest]; [auto|]. simpl. now rewrite Hr.
  - rewrite Hc. destruct IH as [-> ->]. auto.
Qed.

Lemma thousands_no_comma (s : jsstring) :
  match s with c :: _ => (c =? c_comma)%N | [] => false end = false ->
  thousands s = ([], s).
Proof.
  destruct s as [|c [|d1 [|d2 [|d3 rest]]]]; try reflexivity.
  intros Hc. cbn [thousands]. now rewrite Hc.
Qed.

Lemma matchAt_numeral_line (n rest : jsstring) :
  numeral n -> lineEnd rest -> matchAt (n ++ rest) = Some n.
Proof.
  intros [sign [ds [fr [-> [Hs [Hne [Hd Hf]]]]]]] Hrest.
  assert (Hfr : match fr ++ rest with
                | c :: _ => isDigit c || (c =? c_comma)%N
                | [] => false
                end = false).
  { destruct Hf as [->|[fs [-> _]]]; [|reflexivity].
    destruct Hrest as [->|[r ->]]; reflexivity. }
  assert (Hu : matchUnsigned (ds ++ fr ++ rest) = Some (ds ++ fr)).
  { unfold matchUnsigned.
    destruct (@takeWhile_prefix isDigit ds (fr ++ rest) Hd) as [-> ->].
    { destruct (fr ++ rest) as [|c l]; [reflexivity|].
      now apply orb_false_iff in Hfr. }
    destruct ds as [|d ds]; [congruence|].
    rewrite thousands_no_comma.
    2:{ destruct (fr ++ rest) as [|c l]; [reflexivity|].
        now apply orb_false_iff in Hfr. }
    destruct Hf as [->|[fs [-> [Hfs Hall]]]].
    - rewrite app_nil_r. cbn [app].
      destruct Hrest as [->|[r ->]];
        [|destruct r]; simpl; rewrite ?app_nil_r; reflexivity.
    - destruct fs as [|f fs]; [congruence|].
      inversion Hall as [|? ? Hf0 Hfs']; subst.
      cbn [app fraction]. rewrite Hf0. cbn [N.eqb andb].
      change ((c_dot =? c_dot)%N) with true. cbv iota.
      destruct (@takeWhile_prefix isDigit fs rest Hfs') as [-> _].
      { destruct Hrest as [->|[r ->]]; reflexivity. }
      reflexivity. }
  rewrite <- !app_assoc.
  destruct Hs as [->| ->].
  - cbn [app]. destruct ds as [|d ds]; [congruence|].
    cbn [app matchAt] in *. inversion Hd; subst.
    assert (Hm : (d =? c_minus)%N = false).
    { apply N.eqb_neq. intros ->. discriminate. }
    now rewrite Hm.
  - cbn [app matchAt]. change ((c_minus =? c_minus)%N) with true.
    cbv iota. now rewrite Hu.
Qed.

Lemma matchAllFrom_skip (pre s : jsstring) :
  matchAllFrom (List.length pre) (pre ++ s) = matchAllFrom 0 s.
Proof. induction pre as [|c pre IH]; [reflexivity | exact IH]. Qed.

Lemma matchAllFrom_numeral (n rest : jsstring) :
  numeral n -> lineEnd rest ->
  matchAllFrom 0 (n ++ rest) = n :: matchAllFrom 0 rest.
Proof.
  intros Hn Hrest.
  pose proof (matchAt_numeral_line Hn Hrest) as Hm.
  pose proof (numeral_nonempty Hn) as Hne.
  destruct n as [|c n]; [congruence|].
  change ((c :: n) ++ rest) with (c :: (n ++ rest)) in *.
  cbn [matchAllFrom]. rewrite Hm. f_equal.
  replace (List.length (c :: n) - 1) with (List.length n)
    by (simpl; lia).
  apply matchAllFrom_skip.
Qed.

Lemma matchAllFrom_newline (r : jsstring) :
  matchAllFrom 0 (c_nl :: r) = matchAllFrom 0 r.
Proof. reflexivity. Qed.

Lemma matchAll_join_numerals (ns : list jsstring) :
  Forall numeral ns -> matchAllFrom 0 (join [c_nl] ns) = ns.
Proof.
  induction 1 as [|n ns Hn _ IH]; [reflexivity|].
  cbn [join]. destruct ns as [|n' ns].
  - rewrite <- (app_nil_r n) at 1.
    rewrite matchAllFrom_numeral by (auto; now left). reflexivity.
  - rewrite matchAllFrom_numeral by (auto; right; eexists; reflexivity).
    cbn [app]. rewrite matchAllFrom_newline, IH. reflexivity.
Qed.

Lemma stripCommas_numeral (n : jsstring) : numeral n -> stripCommas n = n.
Proof.
  intros [sign [ds [fr [-> [Hs [_ [Hd Hf]]]]]]].
  rewrite !stripCommas_app, (stripCommas_digits Hd). f_equal; [|f_equal].
  - destruct Hs as [->| ->]; reflexivity.
  - destruct Hf as [->|[fs [-> [_ Hfs]]]]; [reflexivity|].
    unfold stripCommas. cbn [filter]. rewrite dot_not_comma. f_equal.
    apply (stripCommas_digits Hfs).
Qed.

(** X12. Extracting the numbers of an already extracted text returns it
    unchanged. *)
Theorem X12_extractNumerics_idempotent (text : jsstring) :
  extractNumerics (extractNumerics text) = extractNumerics text.
Proof.
  unfold extractNumerics at 1 3. unfold matchAll at 1.
  unfold extractNumerics, matchAll.
  pose proof (matchAllFrom_numerals text 0) as Hn.
  rewrite (matchAll_join_numerals Hn). f_equal.
  induction Hn as [|n ns Hn _ IH]; [reflexivity|].
  cbn [map]. now rewrite (stripCommas_numeral Hn), IH.
Qed.

(** ** Comparing parsed values *)

Lemma compareKeys_same (m : jsmap) (vars : list jsstring) :
  compareKeys m m vars = [].
Proof.
  induction vars as [|k vars IH]; simpl; [reflexivity|].
  now rewrite streq_refl.
Qed.

(** X13. A text compared with itself has no change; and comparing in the
    other direction gives the same changes with old and new value
    exchanged. *)
Theorem X13_comparison_symmetric (oldText newText sectionTitle : jsstring) :
  parseNumericComparison oldText oldText sectionTitle = [] /\
  (forall c,
      In c (parseNumericComparison oldText newText sectionTitle) <->
      In (swapChange c)
         (parseNumericComparison newText oldText sectionTitle)).
Proof.
  split.
  - unfold parseNumericComparison. apply compareKeys_same.
  - intros c. unfold parseNumericComparison. rewrite !compareKeys_In.
    split; intros [k [Hk [Hne E]]]; exists k;
      (split; [rewrite set_of_In, in_app_iff in *; tauto|]);
      (split; [congruence|]).
    + subst c. reflexivity.
    + destruct c as [ca co cn ct]. unfold swapChange in E. simpl in E.
      injection E as -> -> -> ->. reflexivity.
Qed.

(** X14. A key only the new text defines is reported, with old value
    ["0"], exactly when its value is not ["0"] itself. *)
Theorem X14_added_key_reported_unless_zero
    (oldText newText sectionTitle k v : jsstring)
    (Hnew : map_get k (buildMap (nonBlankLines newText)) = Some v)
    (Hold : map_get k (buildMap (nonBlankLines oldText)) = None) :
  (In (change k (str "0") v)
      (parseNumericComparison oldText newText sectionTitle)
   <-> v <> str "0") /\
  (forall c, In c (parseNumericComparison oldText newText sectionTitle) ->
             category c = k -> c = change k (str "0") v).
Proof.
  assert (Eo : getOrZero (buildMap (nonBlankLines oldText)) k = str "0").
  { unfold getOrZero. now rewrite Hold. }
  assert (En : getOrZero (buildMap (nonBlankLines newText)) k = v).
  { rewrite getOrZero_buildMap. unfold valueOrZero. now rewrite Hnew. }
  unfold parseNumericComparison. split.
  - rewrite compareKeys_In. split.
    + intros [k' [_ [Hne E]]]. unfold change in E.
      injection E as <- E1 E2. rewrite Eo, En in Hne. congruence.
    + intros Hv. exists k. split.
      * rewrite set_of_In, in_app_iff. right.
        apply map_keys_get. congruence.
      * rewrite Eo, En. split; [congruence | reflexivity].
  - intros c Hc Hk. apply compareKeys_In in Hc.
    destruct Hc as [k' [_ [_ ->]]]. simpl in Hk. subst k'.
    rewrite Eo, En. reflexivity.
Qed.

(** ** The shape of parsed keys and values *)

Lemma dropWhile_idem (p : char -> bool) (s : jsstring) :
  dropWhile p (dropWhile p s) = dropWhile p s.
Proof.
  induction s as [|c s IH]; simpl; [reflexivity|].
  destruct (p c) eqn:E; [exact IH|]. simpl. now rewrite E.
Qed.

Lemma dropWhile_length (p : char -> bool) (s : jsstring) :
  List.length (dropWhile p s) <= List.length s.
Proof.
  induction s as [|c s IH]; simpl; [lia|].
  destruct (p c); simpl; lia.
Qed.

Lemma dropWhile_fixed_prefix (p : char -> bool) (u w : jsstring) :
  dropWhile p (u ++ w) = u ++ w -> dropWhile p u = u.
Proof.
  destruct u as [|c u]; [reflexivity|]. simpl.
  destruct (p c); [|reflexivity].
  intros E. pose proof (dropWhile_length p (u ++ w)) as Hl.
  rewrite E in Hl. simpl in Hl. lia.
Qed.

Lemma dropWhile_suffix (p : char -> bool) (s : jsstring) :
  exists pre, s = pre ++ dropWhile p s.
Proof.
  induction s as [|c s [pre IH]]; simpl; [now exists []|].
  destruct (p c); [|now exists []].
  exists (c :: pre). simpl. now f_equal.
Qed.

Lemma dropWhile_incl (p : char -> bool) (s : jsstring) (c : char) :
  In c (dropWhile p s) -> In c s.
Proof.
  destruct (dropWhile_suffix p s) as [pre E]. intros H.
  rewrite E. apply in_or_app. now right.
Qed.

Lemma trim_incl (s : jsstring) (c : char) : In c (trim s) -> In c s.
Proof.
  unfold trim, trimEnd, trimStart. intros H.
  apply in_rev, dropWhile_incl, in_rev in H.
  now apply dropWhile_incl in H.
Qed.

(** Trimming a trimmed string changes nothing. *)
Lemma trim_idem (s : jsstring) : trim (trim s) = trim s.
Proof.
  unfold trim. set (a := trimStart s).
  assert (Ha : trimStart a = a) by apply dropWhile_idem.
  assert (Hb : trimStart (trimEnd a) = trimEnd a).
  { unfold trimEnd.
    destruct (dropWhile_suffix isWhiteSpace (rev a)) as [pre E].
    apply (f_equal (@rev char)) in E.
    rewrite rev_involutive, rev_app_distr in E.
    unfold trimStart in *. rewrite E in Ha at 1 2.
    exact (dropWhile_fixed_prefix _ _ _ Ha). }
  rewrite Hb. unfold trimEnd. rewrite rev_involutive, dropWhile_idem.
  reflexivity.
Qed.

Lemma split_pieces_no_sep (sep : char) (s piece : jsstring) :
  In piece (split sep s) -> ~ In sep piece.
Proof.
  revert piece; induction s as [|x s IH]; simpl; intros piece Hp.
  - destruct Hp as [<-|[]]. tauto.
  - destruct (N.eqb_spec x sep) as [->|Hne].
    + destruct Hp as [<-|Hp]; [tauto | now apply IH].
    + destruct (split sep s) as [|h t] eqn:E.
      * destruct Hp as [<-|[]]. simpl. intuition.
      * destruct Hp as [<-|Hp].
        -- intros [?|Hin]; [congruence|].
           apply (IH h); simpl; auto.
        -- apply IH. simpl; auto.
Qed.

Lemma map_get_In (k v : jsstring) (m : jsmap) :
  map_get k m = Some v -> In (k, v) m.
Proof.
  induction m as [|[a b] m IH]; simpl; [discriminate|].
  destruct (streq_spec a k) as [->|Hne].
  - intros [= ->]. now left.
  - intros H. right. now apply IH.
Qed.

Lemma buildMap_origin (lines : list jsstring) (k v : jsstring) :
  map_get k (buildMap lines) = Some v ->
  exists line, In line lines /\ parseLine line = Some (k, v).
Proof.
  unfold buildMap. rewrite fold_addLine_get.
  destruct (map_get k (rev (lineEntries lines))) as [v'|] eqn:E;
    [|discriminate].
  intros [= ->]. apply map_get_In, in_rev in E.
  unfold lineEntries in E. apply in_flat_map in E.
  destruct E as [line [Hl He]]. exists line. split; [exact Hl|].
  destruct (parseLine line) as [e|]; [|destruct He].
  destruct He as [->|[]]. reflexivity.
Qed.

Lemma parseLine_pieces (line k v : jsstring) :
  parseLine line = Some (k, v) ->
  exists a b, In a (split c_eq line) /\ In b (split c_eq line) /\
              k = trim a /\ v = trim b.
Proof.
  unfold parseLine.
  destruct (nth_error (map trim (split c_eq line)) 0) as [x|] eqn:E0;
    [|discriminate].
  destruct (nth_error (map trim (split c_eq line)) 1) as [y|] eqn:E1;
    [|discriminate].
  destruct (truthy x && truthy y); [|discriminate].
  intros [= <- <-].
  apply nth_error_In, in_map_iff in E0. destruct E0 as [a [Ea Ha]].
  apply nth_error_In, in_map_iff in E1. destruct E1 as [b [Eb Hb]].
  exists a, b. auto.
Qed.

(** X15. Every key and every value stored from a text is non-empty, has
    no white space at either end, and holds neither ['='] nor a newline. *)
Theorem X15_parsed_entries_clean (text k v : jsstring)
    (Hget : map_get k (buildMap (nonBlankLines text)) = Some v) :
  (k <> [] /\ trim k = k /\ ~ In c_eq k /\ ~ In c_nl k) /\
  (v <> [] /\ trim v = v /\ ~ In c_eq v /\ ~ In c_nl v).
Proof.
  destruct (buildMap_origin _ _ Hget) as [line [Hl Hp]].
  destruct (parseLine_truthy _ Hp) as [Hk Hv].
  destruct (parseLine_pieces _ Hp) as [a [b [Ha [Hb [-> ->]]]]].
  apply filter_In in Hl. destruct Hl as [Hl _].
  pose proof (split_pieces_no_sep _ _ _ Hl) as Hnl.
  assert (Hclean : forall piece, In piece (split c_eq line) ->
            truthy (trim piece) = true ->
            trim piece <> [] /\ trim (trim piece) = trim piece /\
            ~ In c_eq (trim piece) /\ ~ In c_nl (trim piece)).
  { intros piece Hin Ht. split; [|split; [apply trim_idem | split]].
    - intros E. rewrite E in Ht. discriminate.
    - intros H. apply trim_incl in H.
      now apply (split_pieces_no_sep _ _ _ Hin).
    - intros H. apply trim_incl in H. apply Hnl.
      eapply split_incl; eauto. }
  split; apply Hclean; assumption.
Qed.

(** ** Aligning the sections of the two documents *)

Lemma strLeb_total (a b : jsstring) :
  Ui.strLeb a b = false -> Ui.strLeb b a = true.
Proof.
  revert b; induction a as [|x a IH]; intros [|y b]; simpl;
    try congruence.
  destruct (N.ltb_spec x y), (N.ltb_spec y x); try congruence; try lia.
  apply IH.
Qed.

Lemma strLeb_trans (a b c : jsstring) :
  Ui.strLeb a b = true -> Ui.strLeb b c = true -> Ui.strLeb a c = true.
Proof.
  revert b c; induction a as [|x a IH]; intros [|y b] [|z c]; simpl;
    try congruence.
  destruct (N.ltb_spec x y), (N.ltb_spec y x), (N.ltb_spec y z),
    (N.ltb_spec z y), (N.ltb_spec x z), (N.ltb_spec z x);
    try congruence; try lia.
  apply IH.
Qed.

Lemma insertTitle_In (x z : jsstring) (l : list jsstring) :
  In z (Ui.insertTitle x l) <-> z = x \/ In z l.
Proof.
  induction l as [|y l IH]; simpl.
  - intuition congruence.
  - destruct (Ui.strLeb x y); simpl.
    + intuition congruence.
    + rewrite IH. intuition congruence.
Qed.

Lemma sortTitles_In (z : jsstring) (l : list jsstring) :
  In z (Ui.sortTitles l) <-> In z l.
Proof.
  induction l as [|x l IH]; simpl; [tauto|].
  rewrite insertTitle_In, IH. intuition congruence.
Qed.

Lemma insertTitle_sorted (x : jsstring) (l : list jsstring) :
  StronglySorted strLe l -> StronglySorted strLe (Ui.insertTitle x l).
Proof.
  induction 1 as [|y l Hs IH Hy]; simpl.
  - repeat constructor.
  - destruct (Ui.strLeb x y) eqn:E.
    + constructor; [constructor; assumption|].
      constructor; [exact E|].
      rewrite Forall_forall in *. intros z Hz.
      eapply strLeb_trans; [exact E | apply Hy, Hz].
    + constructor; [exact IH|].
      rewrite Forall_forall in *. intros z Hz.
      apply insertTitle_In in Hz. destruct Hz as [->|Hz]; auto.
      now apply strLeb_total.
Qed.

Lemma sortTitles_sorted (l : list jsstring) :
  StronglySorted strLe (Ui.sortTitles l).
Proof.
  induction l as [|x l IH]; simpl; [constructor|].
  now apply insertTitle_sorted.
Qed.

Lemma insertTitle_NoDup (x : jsstring) (l : list jsstring) :
  ~ In x l -> NoDup l -> NoDup (Ui.insertTitle x l).
Proof.
  intros Hx Hl. induction Hl as [|y l Hy Hl IH]; simpl.
  - constructor; [tauto | constructor].
  - destruct (Ui.strLeb x y).
    + constructor; [exact Hx | now constructor].
    + constructor.
      * rewrite insertTitle_In. intros [->|H]; [|tauto].
        apply Hx. now left.
      * apply IH. intros H. apply Hx. now right.
Qed.

Lemma sortTitles_NoDup (l : list jsstring) :
  NoDup l -> NoDup (Ui.sortTitles l).
Proof.
  induction 1 as [|x l Hx Hl IH]; simpl; [constructor|].
  apply insertTitle_NoDup; [|exact IH]. now rewrite sortTitles_In.
Qed.

Lemma ownSelected_sel_set (sel : list (jsstring * bool)) (t t' : jsstring)
    (v : bool) :
  App.ownSelected (Ui.sel_set sel t v) t' =
  if streq t t' then Some v else App.ownSelected sel t'.
Proof.
  induction sel as [|[k b] sel IH]; simpl.
  - reflexivity.
  - destruct (streq_spec k t) as [->|Hne]; simpl.
    + destruct (streq t t'); reflexivity.
    + rewrite IH. destruct (streq_spec k t') as [->|Hne'].
      * destruct (streq_spec t t'); [congruence | reflexivity].
      * reflexivity.
Qed.

Lemma isSelected_sel_set (sel : list (jsstring * bool)) (t t' : jsstring)
    (v : bool) :
  App.isSelected (Ui.sel_set sel t v) t' =
  if streq t t' then v else App.isSelected sel t'.
Proof.
  unfold App.isSelected. rewrite ownSelected_sel_set.
  destruct (streq t t'); reflexivity.
Qed.

(** After the assignments of [true] under the titles of [l]: a title of
    [l] other than [__proto__] has the own property [true], every other
    title is read as before. *)
Lemma isSelected_select_all (l : list jsstring)
    (acc : list (jsstring * bool)) (t : jsstring) :
  App.isSelected
    (fold_left (fun acc t => Ui.sel_assign acc t true) l acc) t =
  mem t l && negb (streq t (str "__proto__")) || App.isSelected acc t.
Proof.
  revert acc; induction l as [|x l IH]; intros acc; simpl; [reflexivity|].
  rewrite IH. unfold Ui.sel_assign.
  destruct (streq_spec t x) as [->|Hne]; simpl.
  - destruct (streq x (str "__proto__")) eqn:Ep.
    + rewrite andb_false_r. reflexivity.
    + rewrite isSelected_sel_set, streq_refl, !orb_true_r.
      destruct (mem x l); reflexivity.
  - destruct (streq x (str "__proto__")); [reflexivity|].
    rewrite isSelected_sel_set.
    assert (E : streq x t = false) by (apply streq_neq; congruence).
    rewrite E. reflexivity.
Qed.

Lemma proto_inherited (t : jsstring) :
  streq t (str "__proto__") = true -> App.isInherited t = true.
Proof. intros H. apply streq_eq in H. subst t. reflexivity. Qed.

(** Read on the freshly built selection, a title is truthy exactly when it
    is one of the titles or an inherited member. *)
Lemma isSelected_initial (l : list jsstring) (t : jsstring) :
  App.isSelected
    (fold_left (fun acc t => Ui.sel_assign acc t true) l []) t = true <->
  In t l \/ App.isInherited t = true.
Proof.
  rewrite isSelected_select_all.
  change (App.isSelected [] t) with (App.isInherited t).
  rewrite orb_true_iff, andb_true_iff, negb_true_iff, mem_In.
  split.
  - intros [[H _]|H]; auto.
  - intros [H|H]; [|now right].
    destruct (streq t (str "__proto__")) eqn:E; [|now left].
    right. now apply proto_inherited.
Qed.

(** X16. The combined titles are the titles of the old and the new
    sections, each once, in ascending code-unit order. *)
Theorem X16_combined_titles_sorted_union (st : App.State) :
  let titles := App.combinedSections (Ui.alignSections st) in
  StronglySorted strLe titles /\
  NoDup titles /\
  (forall t, In t titles <-> In t (sectionTitles st)).
Proof.
  cbn zeta. unfold Ui.alignSections. cbn [App.combinedSections
    Ui.setSelectedSections Ui.setCombinedSections].
  split; [apply sortTitles_sorted|].
  split; [apply sortTitles_NoDup, set_of_NoDup|].
  intros t. rewrite sortTitles_In, set_of_In. reflexivity.
Qed.

(** X17. Every combined title is selected after the alignment; looked up
    in the selection, a title is truthy exactly when it is a combined
    title or the name of a member every object inherits (such as
    [constructor] or [toString]). *)
Theorem X17_all_combined_titles_selected (st : App.State) (t : jsstring) :
  App.isSelected (App.selectedSections (Ui.alignSections st)) t = true <->
  In t (App.combinedSections (Ui.alignSections st)) \/
  App.isInherited t = true.
Proof.
  unfold Ui.alignSections. cbn [App.combinedSections App.selectedSections
    Ui.setSelectedSections Ui.setCombinedSections].
  apply isSelected_initial.
Qed.

(** X18. Toggling a title flips what the selection reads under it (for a
    title without own property: what the inherited member or [undefined]
    reads as) and nothing under any other title; toggling it twice
    restores every reading. The combined titles and the stored comparison
    stay as they are. *)
Theorem X18_toggle_flips_one_title (st : App.State) (t : jsstring) :
  let sel s := App.isSelected (App.selectedSections s) in
  let st1 := Ui.handleSectionToggle t st in
  (forall t', sel st1 t' =
              if streq t t' then negb (sel st t') else sel st t') /\
  (forall t', sel (Ui.handleSectionToggle t st1) t' = sel st t') /\
  App.combinedSections st1 = App.combinedSections st /\
  App.comparisonResult st1 = App.comparisonResult st.
Proof.
  cbn zeta. unfold Ui.handleSectionToggle.
  cbn [App.selectedSections Ui.setSelectedSections App.combinedSections
       App.comparisonResult].
  split.
  - intros t'. rewrite isSelected_sel_set.
    destruct (streq_spec t t') as [->|Hne]; reflexivity.
  - split; [|split; reflexivity].
    intros t'. rewrite !isSelected_sel_set, streq_refl.
    destruct (streq_spec t t') as [->|Hne]; [apply negb_involutive|].
    reflexivity.
Qed.

(** ** What a comparison stores and what an export writes *)

Lemma compareSection_numeric (diffLines : jsstring -> jsstring ->
    list App.DiffPart) (st : App.State) (t : jsstring) :
  App.onlyNumeric st = true -> App.compareSection diffLines st t = [].
Proof.
  intros Hnum. unfold App.compareSection. rewrite Hnum.
  destruct (negb _); [reflexivity|].
  unfold parseNumericComparison.
  rewrite !buildMap_without_eq by apply extractNumerics_noEq.
  reflexivity.
Qed.

Lemma compareSection_cases (diffLines : jsstring -> jsstring ->
    list App.DiffPart) (st : App.State) (t : jsstring) :
  App.compareSection diffLines st t = [] \/
  exists l,
    App.compareSection diffLines st t =
      [{| App.title := t; App.changes := Some l;
          App.numericChanges := None |}] /\
    l <> [] /\ Forall (fun part => changed part = true) l /\
    App.isSelected (App.selectedSections st) t = true.
Proof.
  destruct (App.onlyNumeric st) eqn:Hnum.
  { left. now apply compareSection_numeric. }
  unfold App.compareSection. rewrite Hnum.
  destruct (App.isSelected (App.selectedSections st) t); [|now left].
  cbn [negb].
  set (kept := filter _ _).
  assert (Hk : Forall (fun part => changed part = true) kept)
    by apply filter_Forall.
  destruct kept as [|p l]; [now left|]. right.
  exists (p :: l). cbn [List.length Nat.ltb Nat.leb].
  split; [reflexivity|]. split; [discriminate|]. split; [exact Hk|].
  reflexivity.
Qed.

Lemma handleCompare_results (diffLines : jsstring -> jsstring ->
    list App.DiffPart) (st : App.State) :
  App.comparisonResult (App.handleCompare diffLines st) =
  flat_map (App.compareSection diffLines
              (App.setError [] (App.setIsLoading true st)))
           (App.combinedSections st).
Proof. reflexivity. Qed.

(** X19. The comparison stores at most one result per combined title, in
    the order of the combined titles, and only for titles under which the
    selection reads truthy (an own [true], or an inherited member when the
    title has no own property). *)
Theorem X19_results_follow_selected_titles
    (diffLines : jsstring -> jsstring -> list App.DiffPart)
    (st : App.State) :
  let results := App.comparisonResult (App.handleCompare diffLines st) in
  (exists keep, map App.title results =
                filter keep (App.combinedSections st)) /\
  Forall (fun r => App.isSelected (App.selectedSections st) (App.title r)
                   = true) results.
Proof.
  cbn zeta. rewrite handleCompare_results.
  set (st' := App.setError [] (App.setIsLoading true st)).
  split.
  - exists (fun t => match App.compareSection diffLines st' t with
                     | [] => false | _ :: _ => true end).
    induction (App.combinedSections st) as [|t l IH]; [reflexivity|].
    cbn [flat_map filter]. rewrite map_app, IH.
    destruct (compareSection_cases diffLines st' t) as [->|[p [-> _]]];
      reflexivity.
  - rewrite Forall_forall. intros r Hr. apply in_flat_map in Hr.
    destruct Hr as [t [_ Hr]].
    destruct (compareSection_cases diffLines st' t) as [E|[p [E [_ [_ Hs]]]]];
      rewrite E in Hr; [destruct Hr|].
    destruct Hr as [<-|[]]. exact Hs.
Qed.

Lemma stored_results_shape
    (diffLines : jsstring -> jsstring -> list App.DiffPart)
    (st : App.State) :
  Forall (fun r => exists l,
            App.changes r = Some l /\ l <> [] /\
            Forall (fun part => changed part = true) l /\
            App.numericChanges r = None)
         (App.comparisonResult (App.handleCompare diffLines st)).
Proof.
  rewrite handleCompare_results.
  set (st' := App.setError [] (App.setIsLoading true st)).
  rewrite Forall_forall. intros r Hr. apply in_flat_map in Hr.
  destruct Hr as [t [_ Hr]].
  destruct (compareSection_cases diffLines st' t) as [E|[l [E [Hl [Hc _]]]]];
    rewrite E in Hr; [destruct Hr|].
  destruct Hr as [<-|[]]. exists l. auto.
Qed.

(** X20. Every stored result carries a non-empty list of parts, all of
    them added or removed, and no numeric changes: a section without a
    changed part is not stored. *)
Theorem X20_results_hold_changed_parts
    (diffLines : jsstring -> jsstring -> list App.DiffPart)
    (st : App.State) :
  Forall (fun r => exists l,
            App.changes r = Some l /\ l <> [] /\
            Forall (fun part => changed part = true) l /\
            App.numericChanges r = None)
         (App.comparisonResult (App.handleCompare diffLines st)).
Proof. apply stored_results_shape. Qed.

Lemma pairRows_length (t : jsstring) (numeric : bool) (n : nat) :
  forall parts, List.length parts <= n ->
    List.length (pairRows t numeric parts) <= List.length parts /\
    List.length parts <= 2 * List.length (pairRows t numeric parts).
Proof.
  induction n as [n IH] using lt_wf_ind. intros parts Hn.
  destruct parts as [|p rest]; [simpl; lia|].
  cbn [pairRows].
  destruct (App.removed p).
  - destruct rest as [|q rest']; [simpl; lia|].
    destruct (App.added q).
    + destruct (IH (List.length rest') ltac:(simpl in Hn; lia) rest'
                  (Nat.le_refl _)). simpl; lia.
    + destruct (IH (List.length (q :: rest')) ltac:(simpl in *; lia)
                  (q :: rest') (Nat.le_refl _)). simpl in *; lia.
  - destruct (IH (List.length rest) ltac:(simpl in Hn; lia) rest
                (Nat.le_refl _)). simpl; lia.
Qed.

Lemma textRows_pairRows (t : jsstring) (numeric : bool)
    (parts : list App.DiffPart) :
  Forall (fun part => changed part = true) parts ->
  App.textRows t numeric parts = pairRows t numeric parts.
Proof.
  intros H. unfold App.textRows.
  apply (exportLoop_suffix t numeric (fuel := List.length parts) [] [] H).
  lia.
Qed.

(** X21. A stream of [n] changed parts gives at most [n] rows and at
    least [n / 2], rounded up: every part ends up in a row and no row
    holds more than two parts. *)
Theorem X21_row_count_bounds (t : jsstring) (numeric : bool)
    (parts : list App.DiffPart)
    (Hchanged : Forall (fun part => changed part = true) parts) :
  List.length (App.textRows t numeric parts) <= List.length parts /\
  List.length parts <= 2 * List.length (App.textRows t numeric parts).
Proof.
  rewrite (textRows_pairRows t numeric Hchanged).
  apply (pairRows_length t numeric (n := List.length parts)). lia.
Qed.

Lemma pairRows_nonempty (t : jsstring) (numeric : bool)
    (parts : list App.DiffPart) :
  parts <> [] -> pairRows t numeric parts <> [].
Proof.
  intros Hne E.
  destruct (pairRows_length t numeric (n := List.length parts) parts
              (Nat.le_refl _)) as [_ H].
  rewrite E in H. destruct parts; [congruence | simpl in H; lia].
Qed.

Lemma exportData_after_compare
    (diffLines : jsstring -> jsstring -> list App.DiffPart)
    (st : App.State) :
  App.buildExportData (App.handleCompare diffLines st) = [] <->
  App.comparisonResult (App.handleCompare diffLines st) = [].
Proof.
  unfold App.buildExportData.
  pose proof (stored_results_shape diffLines st) as Hs.
  destruct (App.comparisonResult (App.handleCompare diffLines st))
    as [|r rs]; [simpl; tauto|].
  split; [|discriminate]. intros E. exfalso.
  inversion Hs as [|? ? [l [Hc [Hl [Hch Hn]]]] _]; subst.
  cbn [flat_map] in E. apply app_eq_nil in E. destruct E as [E _].
  unfold App.resultRows in E. rewrite Hn, Hc in E.
  rewrite (textRows_pairRows _ _ Hch) in E.
  now apply (pairRows_nonempty (App.title r)
               (App.onlyNumeric (App.handleCompare diffLines st)) Hl).
Qed.


(** X23. In numeric-only mode a comparison followed by an export never
    writes a file; it ends with the message that there is nothing to
    export. *)
Theorem X23_numeric_mode_never_exports
    (diffLines : jsstring -> jsstring -> list App.DiffPart)
    (xlsxWrite : list App.ExportRow -> Res unit) (st : App.State)
    (Hnum : App.onlyNumeric st = true) :
  let run := App.handleExport xlsxWrite (App.handleCompare diffLines st) in
  App.calls run = [] /\
  App.error (App.state run) = str "No differences to export.".
Proof.
  cbn zeta.
  assert (E : App.comparisonResult (App.handleCompare diffLines st) = []).
  { rewrite handleCompare_results.
    induction (App.combinedSections st) as [|t l IH]; [reflexivity|].
    cbn [flat_map]. rewrite IH, app_nil_r.
    now apply compareSection_numeric. }
  apply exportData_after_compare in E.
  unfold App.handleExport. rewrite E. split; reflexivity.
Qed.

(** ** Choosing files and loading the documents *)


(** X25. With both files chosen and both documents loaded, the sections
    of the two parses are stored, the stored comparison and the error are
    cleared, and the fallback notice is shown exactly when one of the
    outlines has no titled entry. *)
Theorem X25_load_sets_fallback_notice (oldDoc newDoc : Document)
    (s : Ui.Session)
    (Hold : Ui.oldPdf s <> None) (Hnew : Ui.newPdf s <> None) :
  let st' := Ui.cells (Ui.processFiles (Ui.parseBoth oldDoc newDoc) s) in
  App.oldPdfSections st' = fst (parsePdf oldDoc) /\
  App.newPdfSections st' = fst (parsePdf newDoc) /\
  (App.fallbackMessage st' <> [] <->
   outlineEntries oldDoc = [] \/ outlineEntries newDoc = []) /\
  App.comparisonResult st' = [] /\
  App.error st' = [] /\
  App.isLoading st' = false.
Proof.
  cbn zeta. unfold Ui.processFiles, Ui.parseBoth.
  destruct (Ui.oldPdf s); [|congruence].
  destruct (Ui.newPdf s); [|congruence].
  assert (Em : forall d, snd (parsePdf d) =
                 match outlineEntries d with [] => PAGES | _ => TOC end).
  { intros d. rewrite <- mode_of_outlineEntries. unfold parsePdf.
    now destruct (finalSections d). }
  rewrite !Em.
  destruct (outlineEntries oldDoc), (outlineEntries newDoc); cbn;
    repeat split; try reflexivity; try discriminate; try tauto;
    intros [?|?]; discriminate.
Qed.

(** X26. When a parse is rejected the previously stored sections stay,
    the stored comparison is cleared and the error names the failure;
    with a file missing nothing changes at all. *)
Theorem X26_rejected_parse_keeps_sections (message : jsstring)
    (s : Ui.Session) :
  let s' := Ui.processFiles (Ui.Rejected message) s in
  App.oldPdfSections (Ui.cells s') = App.oldPdfSections (Ui.cells s) /\
  App.newPdfSections (Ui.cells s') = App.newPdfSections (Ui.cells s) /\
  match Ui.oldPdf s, Ui.newPdf s with
  | Some _, Some _ =>
      App.error (Ui.cells s') =
        str "Failed to parse PDF: " ++ message
        ++ str ". Please ensure the file is not corrupted." /\
      App.comparisonResult (Ui.cells s') = [] /\
      App.fallbackMessage (Ui.cells s') = [] /\
      App.isLoading (Ui.cells s') = false
  | _, _ => s' = s
  end.
Proof.
  cbn zeta. unfold Ui.processFiles.
  destruct (Ui.oldPdf s), (Ui.newPdf s); cbn; repeat split; reflexivity.
Qed.

(** X27. After both documents are loaded and the sections aligned, the
    combined titles are exactly the titles of the final sections of the
    two documents, and each of them is selected: the selection reads
    truthy under a title exactly when it is a combined title or the name
    of an inherited member. *)
Theorem X27_combined_titles_of_loaded_documents
    (oldDoc newDoc : Document) (s : Ui.Session)
    (Hold : Ui.oldPdf s <> None) (Hnew : Ui.newPdf s <> None) :
  let st' :=
    Ui.alignSections
      (Ui.cells (Ui.processFiles (Ui.parseBoth oldDoc newDoc) s)) in
  forall t,
    (In t (App.combinedSections st') <->
     In t (finalTitles oldDoc) \/ In t (finalTitles newDoc)) /\
    (App.isSelected (App.selectedSections st') t = true <->
     In t (App.combinedSections st') \/ App.isInherited t = true).
Proof.
  cbn zeta. intros t.
  set (st1 := Ui.cells (Ui.processFiles (Ui.parseBoth oldDoc newDoc) s)).
  assert (Eo : App.oldPdfSections st1 = fst (parsePdf oldDoc) /\
               App.newPdfSections st1 = fst (parsePdf newDoc)).
  { subst st1. unfold Ui.processFiles, Ui.parseBoth.
    destruct (Ui.oldPdf s); [|congruence].
    destruct (Ui.newPdf s); [|congruence].
    destruct (Ui.isPages _ || Ui.isPages _); split; reflexivity. }
  destruct Eo as [Eo En].
  assert (Et : forall d, map Extracted.title (fst (parsePdf d)) =
                         finalTitles d).
  { intros d. unfold parsePdf, finalTitles.
    destruct (finalSections d). apply extractSections_titles. }
  split.
  - unfold Ui.alignSections. cbn [App.combinedSections
      Ui.setSelectedSections Ui.setCombinedSections].
    rewrite sortTitles_In, set_of_In, in_app_iff, Eo, En, !Et.
    reflexivity.
  - unfold Ui.alignSections. cbn [App.combinedSections
      App.selectedSections Ui.setSelectedSections Ui.setCombinedSections].
    apply isSelected_initial.
Qed.

(** ** The text of the sections *)

Lemma extractSections_texts (pdf : Document) (l : list Sect) :
  map (fun e => Extracted.text (fst e)) (extractSections pdf l) =
  map (fun fetched => List.concat (map (pageText pdf) fetched))
      (map snd (extractSections pdf l)).
Proof.
  induction l as [|x l IH]; [reflexivity|].
  rewrite extractSections_cons. cbn [map fst snd Extracted.text].
  now rewrite IH.
Qed.

Lemma concat_map_concat (A B : Type) (g : A -> list B) (ls : list (list A)) :
  List.concat (map (fun l => List.concat (map g l)) ls) =
  List.concat (map g (List.concat ls)).
Proof.
  induction ls as [|l ls IH]; simpl; [reflexivity|].
  now rewrite map_app, concat_app, IH.
Qed.

(** X28. Put end to end, the texts of the sections are the texts of the
    pages of [1..P] from the first section's start page on, in page order:
    from there on no page text is lost, repeated or reordered. *)
Theorem X28_section_texts_cover_pages (pdf : Document) :
  List.concat (map Extracted.text (fst (parsePdf pdf))) =
  List.concat
    (map (pageText pdf)
         (filter (inRange (numPages pdf))
                 (pageRange (firstStart (fst (finalSections pdf)))
                            (numPages pdf + 1)))).
Proof.
  unfold parsePdf.
  destruct (finalSections_shape pdf) as [Hs [Hb H0]].
  destruct (finalSections pdf) as [sections mode]. cbn [fst] in *.
  rewrite map_map, extractSections_texts, concat_map_concat.
  destruct sections as [|x l].
  - rewrite (H0 eq_refl). reflexivity.
  - rewrite fetched_sorted_sections by (auto; discriminate). reflexivity.
Qed.

Lemma extract_pageSections (pdf : Document) (len a : nat) :
  1 <= a -> a + len = numPages pdf + 1 ->
  map (fun e => Extracted.text (fst e))
      (extractSections pdf (map pageSection (seq a len))) =
  map (pageText pdf) (seq a len).
Proof.
  revert a; induction len as [|len IH]; intros a Ha Hlen; [reflexivity|].
  cbn [seq map]. rewrite extractSections_cons.
  cbn [map fst Extracted.text]. rewrite (IH (S a)) by lia. f_equal.
  assert (Eb : endBound pdf (map pageSection (seq (S a) len)) = S a).
  { destruct len; cbn [seq map endBound]; [lia | reflexivity]. }
  rewrite Eb. unfold pageRange. cbn [startPage pageSection].
  replace (S a - a) with 1 by lia. cbn [seq filter].
  assert (Er : inRange (numPages pdf) a = true).
  { unfold inRange. apply andb_true_iff. rewrite !Nat.leb_le. lia. }
  rewrite Er. cbn [map List.concat]. apply app_nil_r.
Qed.

(** X29. Without a titled outline entry the sections are the pages: the
    text of the [n]-th section is the text of page [n]. *)
Theorem X29_page_mode_section_is_page (pdf : Document)
    (Hno : outlineEntries pdf = []) :
  map Extracted.text (fst (parsePdf pdf)) =
  map (pageText pdf) (seq 1 (numPages pdf)).
Proof.
  unfold parsePdf. rewrite finalSections_traversal.
  assert (Et : traversal pdf = []).
  { pose proof (traversal_entries pdf) as E. rewrite Hno in E.
    destruct (traversal pdf); [reflexivity | discriminate]. }
  rewrite Et. cbn [fst]. rewrite map_map, pageSections_eq.
  apply extract_pageSections; lia.
Qed.

(** ** The rows of a result *)

Lemma exportLoop_rows (P : App.ExportRow -> Prop) (t : jsstring)
    (numeric : bool) (parts : list App.DiffPart) :
  (forall current next i,
      P (fst (App.exportStep t numeric current next i))) ->
  forall fuel i acc,
    Forall P acc -> Forall P (App.exportLoop fuel t numeric parts i acc).
Proof.
  intros Hstep. induction fuel as [|fuel IH]; intros i acc Hacc;
    cbn [App.exportLoop]; [exact Hacc|].
  destruct (nth_error parts i) as [current|]; [|exact Hacc].
  set (next := if i + 1 <? List.length parts
               then nth_error parts (i + 1) else None).
  specialize (Hstep current next i).
  destruct (App.exportStep t numeric current next i) as [row i'].
  apply IH. apply Forall_app. split; [exact Hacc|].
  constructor; [exact Hstep | constructor].
Qed.

(** X30. Every row built from the parts of a result, whatever the parts,
    carries the title of the result, no category, the difference type of
    the current mode, and values without white space at either end. *)
Theorem X30_text_rows_trimmed (t : jsstring) (numeric : bool)
    (parts : list App.DiffPart) :
  Forall (fun row =>
            App.SectionTitle row = t /\
            App.Category row = None /\
            App.DifferenceType row =
              (if numeric then str "Numeric" else str "Textual") /\
            trim (App.OldValue row) = App.OldValue row /\
            trim (App.NewValue row) = App.NewValue row)
         (App.textRows t numeric parts).
Proof.
  unfold App.textRows. apply exportLoop_rows; [|constructor].
  intros current next i. unfold App.exportStep.
  destruct (App.removed current && _);
    [|destruct (App.removed current); [|destruct (App.added current)]];
    cbn [fst App.SectionTitle App.Category App.DifferenceType
         App.OldValue App.NewValue];
    repeat split; try apply trim_idem; try reflexivity.
  destruct next; [apply trim_idem | reflexivity].
Qed.

(** ** The further properties on concrete inputs *)

Lemma X7_final_pages_witness :
  1 <= numPages threePages /\
  Forall (fun s => 1 <= startPage s <= 3) (fst (finalSections threePages)).
Proof.
  assert (H : 1 <= numPages threePages) by (simpl; lia).
  split; [exact H|].
  apply (@X7_final_pages_within_document threePages H).
Defined.

Lemma X14_added_key_witness :
  map_get (str "fee") (buildMap (nonBlankLines (str "rate = 10
fee = 5"))) = Some (str "5") /\
  map_get (str "fee") (buildMap (nonBlankLines (str "rate = 10"))) = None /\
  In (change (str "fee") (str "0") (str "5"))
     (parseNumericComparison (str "rate = 10") (str "rate = 10
fee = 5") (str "Rates")).
Proof.
  assert (Hn : map_get (str "fee") (buildMap (nonBlankLines (str "rate = 10
fee = 5"))) = Some (str "5")) by (vm_compute; reflexivity).
  assert (Ho : map_get (str "fee")
                 (buildMap (nonBlankLines (str "rate = 10"))) = None)
    by (vm_compute; reflexivity).
  split; [exact Hn|]. split; [exact Ho|].
  apply (@X14_added_key_reported_unless_zero (str "rate = 10")
           (str "rate = 10
fee = 5") (str "Rates") (str "fee") (str "5") Hn Ho).
  discriminate.
Defined.

Lemma X15_parsed_entries_witness :
  map_get (str "rate") (buildMap (nonBlankLines (str " rate =  10 ")))
    = Some (str "10") /\
  trim (str "rate") = str "rate" /\ trim (str "10") = str "10".
Proof.
  assert (H : map_get (str "rate")
                (buildMap (nonBlankLines (str " rate =  10 ")))
              = Some (str "10")) by (vm_compute; reflexivity).
  split; [exact H|].
  destruct (@X15_parsed_entries_clean (str " rate =  10 ") (str "rate")
              (str "10") H)
    as [[_ [Hk _]] [_ [Hv _]]].
  split; [exact Hk | exact Hv].
Defined.

Lemma X21_row_count_witness :
  Forall (fun part => changed part = true)
    [removedPart (str "A"); addedPart (str "B"); removedPart (str "C")] /\
  3 <= 2 * List.length
         (App.textRows (str "S") false
            [removedPart (str "A"); addedPart (str "B");
             removedPart (str "C")]).
Proof.
  assert (H : Forall (fun part => changed part = true)
    [removedPart (str "A"); addedPart (str "B"); removedPart (str "C")])
    by (repeat constructor).
  split; [exact H|].
  apply (@X21_row_count_bounds (str "S") false _ H).
Defined.

Lemma X23_numeric_mode_witness :
  App.onlyNumeric (freshState true) = true /\
  App.calls (App.handleExport (fun _ => Ok tt)
               (App.handleCompare (fun _ _ => []) (freshState true))) = [].
Proof.
  assert (H : App.onlyNumeric (freshState true) = true) by reflexivity.
  split; [exact H|].
  apply (@X23_numeric_mode_never_exports (fun _ _ => []) (fun _ => Ok tt)
           (freshState true) H).
Defined.

Lemma X25_load_witness :
  Ui.oldPdf readySession <> None /\ Ui.newPdf readySession <> None /\
  App.comparisonResult
    (Ui.cells (Ui.processFiles (Ui.parseBoth threePages (oneEntry 0))
                               readySession)) = [].
Proof.
  assert (Ho : Ui.oldPdf readySession <> None) by discriminate.
  assert (Hn : Ui.newPdf readySession <> None) by discriminate.
  split; [exact Ho|]. split; [exact Hn|].
  apply (@X25_load_sets_fallback_notice threePages (oneEntry 0)
           readySession Ho Hn).
Defined.

Lemma X27_combined_titles_witness :
  Ui.oldPdf readySession <> None /\ Ui.newPdf readySession <> None /\
  In (str "A")
     (App.combinedSections
        (Ui.alignSections
           (Ui.cells (Ui.processFiles (Ui.parseBoth threePages (oneEntry 0))
                                      readySession)))).
Proof.
  assert (Ho : Ui.oldPdf readySession <> None) by discriminate.
  assert (Hn : Ui.newPdf readySession <> None) by discriminate.
  split; [exact Ho|]. split; [exact Hn|].
  destruct (@X27_combined_titles_of_loaded_documents threePages
              (oneEntry 0) readySession Ho Hn (str "A")) as [[_ H] _].
  apply H. right. vm_compute. now left.
Defined.

Lemma X29_page_mode_witness :
  outlineEntries threePages = [] /\
  map Extracted.text (fst (parsePdf threePages)) =
    [str "p1"; str "p2"; str "p3"].
Proof.
  assert (H : outlineEntries threePages = []) by reflexivity.
  split; [exact H|].
  apply (@X29_page_mode_section_is_page threePages H).
Defined.

(** ** The page spread in a whole parse *)

Lemma no_unresolved_section (pdf : Document) :
  filter unresolved (dedupe (traversal pdf)) = [].
Proof.
  apply filter_none. rewrite Forall_forall. intros s Hs.
  apply dedupe_In in Hs.
  pose proof (traversal_valid pdf) as Hv. rewrite Forall_forall in Hv.
  unfold unresolved. now rewrite (Hv s Hs).
Qed.

(** C3 (the code departs from the claim). Applied to deduplicated sections
    with four unresolved ones, a resolved one and [P = 20], lines 105-113
    do give the pages 4, 8, 12 and 16; but no parse reaches them with an
    unresolved section, since the traversal flags every section valid. In
    a 20-page document with four entries without destination and one
    resolved to page 7, the four keep the provisional pages 1, 3, 4 and
    5. *)
Theorem C3_spread_never_reached :
  (forall pdf, filter unresolved (dedupe (traversal pdf)) = []) /\
  map titlePageFlag (fst (finalSections fourUnresolved)) =
    [ (str "u1", 1, true); (str "u2", 3, true); (str "u3", 4, true);
      (str "u4", 5, true); (str "v", 7, true) ] /\
  map startPage (filter unresolved (estimatePages 20 spreadExample)) =
    [4; 8; 12; 16].
Proof.
  split; [exact no_unresolved_section|].
  split; [vm_compute; reflexivity | reflexivity].
Qed.

(** ** Worked examples of the selection *)

(** Toggling a title that has no own property but names an inherited
    member stores [false]. *)
Example toggle_inherited_member :
  App.selectedSections
    (Ui.handleSectionToggle (str "constructor")
       (Ui.setSelectedSections [] (freshState false)))
  = [(str "constructor", false)].
Proof. reflexivity. Qed.

(** A combined title without own property that names an inherited member
    is compared. *)
Example inherited_title_is_compared :
  map App.title
    (App.comparisonResult
       (App.handleCompare
          (fun _ _ => [removedPart (str "x")])
          (Ui.setCombinedSections [str "toString"; str "Other"]
             (Ui.setSelectedSections [] (freshState false)))))
  = [str "toString"].
Proof. vm_compute. reflexivity. Qed.

(** A section titled [__proto__] gets no own property from the alignment
    and still reads as selected. *)
Example align_proto_title :
  let st :=
    Ui.alignSections
      (Ui.setPdfSections
         [{| Extracted.title := str "__proto__"; Extracted.text := [] |};
          {| Extracted.title := str "Rates"; Extracted.text := [] |}]
         [] (freshState false)) in
  App.selectedSections st = [(str "Rates", true)] /\
  App.isSelected (App.selectedSections st) (str "__proto__") = true.
Proof. vm_compute. split; reflexivity. Qed.

Example estimatePages_spread_example :
  map startPage
      (filter unresolved (clampPages 20 (estimatePages 20 spreadExample)))
  = [4; 8; 12; 16].
Proof.
  assert (H : exists s, In s spreadExample /\ hasValidPage s = true).
  { exists (nth 1 spreadExample (pageSection 0)).
    split; [simpl; auto | reflexivity]. }
  apply (estimatePages_spread 20 spreadExample H); reflexivity.
Qed.
